(** * A shallow embedding of the fdk-aac encoder wrapper (src/enc.rs)

    The wrapper drives the native fdk-aac encoder through its C interface.
    Every native call is an oracle of this development: a function of an
    abstract engine state, so that the properties below hold for every
    engine behaviour, and the concrete behaviours of the examples are
    scripted instances of those oracles.

    Rust integers are [Z]; the conversions [as c_int], [as i32] and
    [as usize] and the [usize] additions are written out with their
    wrap-around (the additions as in a release build, which wraps). *)

From Stdlib Require Import ZArith List Lia Bool String.
Import ListNotations.
Open Scope string_scope.
Open Scope list_scope.
Open Scope Z_scope.

(** ** Machine integers *)

Definition two32 : Z := 2 ^ 32.
Definition two64 : Z := 2 ^ 64.

(** [x as c_int] / [x as i32] for a [usize] or [u32] value [x]. *)
Definition to_i32 (x : Z) : Z :=
  let m := x mod two32 in
  if m <? 2 ^ 31 then m else m - two32.

(** [x as usize] for an [i32] value (sign extension, then reinterpretation)
    and the wrapping [usize] addition. *)
Definition to_usize (x : Z) : Z := x mod two64.
Definition usize_add (a b : Z) : Z := (a + b) mod two64.

(** ** Constants of [aacenc_lib.h], as the bindings of [fdk_aac_sys] export them *)

Definition AACENC_OK : Z := 0x0000.
Definition AACENC_INVALID_HANDLE : Z := 0x0020.
Definition AACENC_MEMORY_ERROR : Z := 0x0021.
Definition AACENC_UNSUPPORTED_PARAMETER : Z := 0x0022.
Definition AACENC_INVALID_CONFIG : Z := 0x0023.
Definition AACENC_INIT_ERROR : Z := 0x0040.
Definition AACENC_INIT_AAC_ERROR : Z := 0x0041.
Definition AACENC_INIT_SBR_ERROR : Z := 0x0042.
Definition AACENC_INIT_TP_ERROR : Z := 0x0043.
Definition AACENC_INIT_META_ERROR : Z := 0x0044.
Definition AACENC_INIT_MPS_ERROR : Z := 0x0045.
Definition AACENC_ENCODE_ERROR : Z := 0x0060.
Definition AACENC_ENCODE_EOF : Z := 0x0080.

Definition AACENC_AOT : Z := 0x0100.
Definition AACENC_BITRATE : Z := 0x0101.
Definition AACENC_BITRATEMODE : Z := 0x0102.
Definition AACENC_SAMPLERATE : Z := 0x0103.
Definition AACENC_SBR_MODE : Z := 0x0104.
Definition AACENC_CHANNELMODE : Z := 0x0106.
Definition AACENC_TRANSMUX : Z := 0x0300.

Definition IN_AUDIO_DATA : Z := 0.
Definition OUT_BITSTREAM_DATA : Z := 3.

(** [mem::size_of::<i16>()] *)
Definition size_of_i16 : Z := 2.

(** ** Errors: [EncoderError], [message], [code], [check] *)

(** [std::io::Error] is opaque to the wrapper; its kind is kept for
    the examples only. *)
Inductive io_error := mk_io_error (kind : nat).

Inductive EncoderError :=
| Io (e : io_error)
| FdkAac (c : Z).

Definition message (e : EncoderError) : string :=
  match e with
  | FdkAac c =>
      if c =? AACENC_INVALID_HANDLE then "Handle passed to function call was invalid."
      else if c =? AACENC_MEMORY_ERROR then "Memory allocation failed."
      else if c =? AACENC_UNSUPPORTED_PARAMETER then "Parameter not available."
      else if c =? AACENC_INVALID_CONFIG then "Configuration not provided."
      else if c =? AACENC_INIT_ERROR then "General initialization error."
      else if c =? AACENC_INIT_AAC_ERROR then "AAC library initialization error."
      else if c =? AACENC_INIT_SBR_ERROR then "SBR library initialization error."
      else if c =? AACENC_INIT_TP_ERROR then "Transport library initialization error."
      else if c =? AACENC_INIT_META_ERROR then "Meta data library initialization error."
      else if c =? AACENC_INIT_MPS_ERROR then "MPS library initialization error."
      else if c =? AACENC_ENCODE_ERROR then "The encoding process was interrupted by an unexpected error."
      else "Unknown error"
  | Io _ => "io error"
  end.

Definition code (e : EncoderError) : Z :=
  match e with
  | FdkAac c => c
  | Io _ => 0
  end.

Inductive result (A : Type) :=
| Ok (a : A)
| Err (e : EncoderError).
Arguments Ok {A} a.
Arguments Err {A} e.

Definition check (e : Z) : result unit :=
  if e =? AACENC_OK then Ok tt else Err (FdkAac e).

(** The known codes of the error taxonomy with their messages: the table
    the spec describes, to be compared with [message]. *)
Definition known_messages : list (Z * string) :=
  [ (AACENC_INVALID_HANDLE, "Handle passed to function call was invalid.");
    (AACENC_MEMORY_ERROR, "Memory allocation failed.");
    (AACENC_UNSUPPORTED_PARAMETER, "Parameter not available.");
    (AACENC_INVALID_CONFIG, "Configuration not provided.");
    (AACENC_INIT_ERROR, "General initialization error.");
    (AACENC_INIT_AAC_ERROR, "AAC library initialization error.");
    (AACENC_INIT_SBR_ERROR, "SBR library initialization error.");
    (AACENC_INIT_TP_ERROR, "Transport library initialization error.");
    (AACENC_INIT_META_ERROR, "Meta data library initialization error.");
    (AACENC_INIT_MPS_ERROR, "MPS library initialization error.");
    (AACENC_ENCODE_ERROR, "The encoding process was interrupted by an unexpected error.") ].

Definition known_codes : list Z := map fst known_messages.

(** ** Encoder construction: [EncoderHandle::alloc] and [Encoder::new] *)

Inductive BitRate :=
| Cbr (bitrate : Z)
| VbrVeryLow
| VbrLow
| VbrMedium
| VbrHigh
| VbrVeryHigh.

Inductive Transport := Adts | Raw.

Record EncoderParams := {
  bit_rate : BitRate;
  sample_rate : Z;
  transport : Transport
}.

(** The [Encoder] only owns its handle. *)
Inductive Encoder := mkEncoder.

(** The native calls issued while an encoder is built and dropped. *)
Inductive ConfCall :=
| COpen (max_modules max_channels : Z)      (* aacEncOpen *)
| CSetParam (param value : Z)               (* aacEncoder_SetParam *)
| CEncodeNull                               (* aacEncEncode with null buffers *)
| CClose.                                   (* aacEncClose, from Drop *)

Module Config.
Section Config.

(** The native engine seen by [new]: each call returns an error code. *)
Context {CS : Type}.
Variable engine : CS -> ConfCall -> CS * Z.

(** A state and error monad over the engine state and the log of the
    native calls with their return codes. *)
Definition CM (A : Type) : Type :=
  CS * list (ConfCall * Z) -> result A * (CS * list (ConfCall * Z)).

Definition cret {A} (a : A) : CM A := fun st => (Ok a, st).

Definition cbind {A B} (m : CM A) (k : A -> CM B) : CM B :=
  fun st =>
    match m st with
    | (Ok a, st') => k a st'
    | (Err e, st') => (Err e, st')
    end.

Local Notation "'let?' x := m 'in' k" := (cbind m (fun x => k))
  (at level 200, x name, m at level 100, k at level 200).

Definition engine_call (c : ConfCall) : CM Z :=
  fun '(s, log) => let '(s', r) := engine s c in (Ok r, (s', log ++ [(c, r)])).

(** [check(sys::...)?] *)
Definition check_call (c : ConfCall) : CM unit :=
  let? r := engine_call c in fun st => (check r, st).

Definition alloc (max_modules max_channels : Z) : CM unit :=
  check_call (COpen max_modules max_channels).

(** The [unsafe] block of [Encoder::new]. *)
Definition new_body (params : EncoderParams) : CM unit :=
  let? _ := check_call (CSetParam AACENC_AOT 2) in
  let? bitrate_mode :=
    match bit_rate params with
    | Cbr bitrate =>
        let? _ := check_call (CSetParam AACENC_BITRATE bitrate) in cret 0
    | VbrVeryLow => cret 1
    | VbrLow => cret 2
    | VbrMedium => cret 3
    | VbrHigh => cret 4
    | VbrVeryHigh => cret 5
    end in
  let? _ := check_call (CSetParam AACENC_BITRATEMODE bitrate_mode) in
  let? _ := check_call (CSetParam AACENC_SAMPLERATE (sample_rate params)) in
  let? _ := check_call (CSetParam AACENC_TRANSMUX
                          (match transport params with Adts => 2 | Raw => 0 end)) in
  let? _ := check_call (CSetParam AACENC_SBR_MODE 0) in
  let? _ := check_call (CSetParam AACENC_CHANNELMODE 2) in
  check_call CEncodeNull.

(** [Encoder::new]: once [alloc] succeeded the handle is owned by a local,
    so an early return drops it, which calls [aacEncClose]. *)
Definition new (params : EncoderParams) : CM Encoder :=
  let? _ := alloc 0 2 in
  fun st =>
    match new_body params st with
    | (Ok _, st') => (Ok mkEncoder, st')
    | (Err e, st') => let '(_, st'') := engine_call CClose st' in (Err e, st'')
    end.

(** A run of [check(...)?] calls, one after the other. *)
Fixpoint check_seq (cs : list ConfCall) : CM unit :=
  match cs with
  | [] => cret tt
  | c :: cs' =>
      match cs' with
      | [] => check_call c
      | _ :: _ => let? _ := check_call c in check_seq cs'
      end
  end.

End Config.
End Config.

Definition all_ok (log : list (ConfCall * Z)) : Prop :=
  Forall (fun p => snd p = AACENC_OK) log.

(** The order of native calls the spec prescribes for construction. *)
Definition spec_bitrate_calls (b : BitRate) : list ConfCall :=
  match b with
  | Cbr r => [CSetParam AACENC_BITRATE r; CSetParam AACENC_BITRATEMODE 0]
  | VbrVeryLow => [CSetParam AACENC_BITRATEMODE 1]
  | VbrLow => [CSetParam AACENC_BITRATEMODE 2]
  | VbrMedium => [CSetParam AACENC_BITRATEMODE 3]
  | VbrHigh => [CSetParam AACENC_BITRATEMODE 4]
  | VbrVeryHigh => [CSetParam AACENC_BITRATEMODE 5]
  end.

Definition spec_config_calls (p : EncoderParams) : list ConfCall :=
  [COpen 0 2; CSetParam AACENC_AOT 2]
  ++ spec_bitrate_calls (bit_rate p)
  ++ [CSetParam AACENC_SAMPLERATE (sample_rate p);
      CSetParam AACENC_TRANSMUX (match transport p with Adts => 2 | Raw => 0 end);
      CSetParam AACENC_SBR_MODE 0;
      CSetParam AACENC_CHANNELMODE 2;
      CEncodeNull].

(** ** The streaming loop: [Encoder::info] and [Encoder::encode] *)

Definition byte := Byte.byte.

(** [Result<T, std::io::Error>] of the [Read] and [Write] collaborators. *)
Inductive io_result (A : Type) :=
| IoOk (a : A)
| IoErr (e : io_error).
Arguments IoOk {A} a.
Arguments IoErr {A} e.

(** [AACENC_BufDesc] with one buffer: the pointer is modelled by the
    contents of the [Vec] it points into. *)
Record BufDesc := {
  numBufs : Z;
  bufferIdentifier : Z;
  bufSize : Z;
  bufElSize : Z;
  bufRegion : list byte
}.

(** [AACENC_InArgs] *)
Record InArgs := {
  in_numInSamples : Z;
  numAncBytes : Z
}.

(** [AACENC_OutArgs], the two fields the wrapper reads (both [INT]). *)
Record OutArgs := {
  numOutBytes : Z;
  out_numInSamples : Z
}.

(** [EncodeInfo] *)
Record EncodeInfo := {
  input_consumed : Z;
  output_size : Z
}.

(** What the run does, in order.  [EvLoopHead] marks the top of each
    iteration of [loop] with the two running totals at that point. *)
Inductive Event :=
| EvInfo (code : Z) (frameLength : Z)
| EvLoopHead (total_consumed_samples total_written_bytes : Z)
| EvRead (data : list byte)
| EvReadErr (e : io_error)
| EvProcess (input_desc output_desc : BufDesc) (in_args : InArgs)
            (code : Z) (out_args : OutArgs)
| EvWrite (offered : list byte) (res : io_result Z).

(** The outcome of [encode]: [Ok], [Err], or a panic of the slice
    [output_buffer[0..output_size]]. *)
Inductive EncodeOutcome :=
| Done (i : EncodeInfo)
| Failed (e : EncoderError)
| Panicked.

(** The bytes [w] written at the start of the buffer [old], in place:
    nothing is written past its end. *)
Definition overwrite_prefix (w old : list byte) : list byte :=
  let w' := firstn (List.length old) w in w' ++ skipn (List.length w') old.

Module Loop.
Section Loop.

(** The input source: [Read::read] on a buffer of the given length. *)
Context {RS : Type}.
Variable read : RS -> nat -> RS * io_result (list byte).
(** The engine: [aacEncInfo] (code and [frameLength], a [u32]) and the
    data call of [aacEncEncode], which also returns the bytes it wrote at
    the start of the output buffer. *)
Context {ES : Type}.
Variable info : ES -> ES * (Z * Z).
Variable process : ES -> BufDesc -> BufDesc -> InArgs -> ES * (Z * OutArgs * list byte).
(** The output sink: [Write::write], which returns the number of bytes of
    the offered slice it took. *)
Context {WS : Type}.
Variable write : WS -> list byte -> WS * io_result Z.

Record LoopState := {
  ls_input : RS;
  ls_engine : ES;
  ls_output : WS;
  input_buffer : list byte;
  output_buffer : list byte;
  total_consumed_samples : Z;
  total_written_bytes : Z
}.

Inductive Step :=
| Continue (st : LoopState)
| Break (st : LoopState)
| Return (e : EncoderError)
| Panic.

(** [input.read(&mut input_buffer)]: a [Read] fills at most the slice it
    is given, a prefix of the buffer, and reports how much it filled. *)
Definition read_into (st : LoopState) : RS * io_result (list byte * list byte) :=
  let '(rs', r) := read (ls_input st) (List.length (input_buffer st)) in
  match r with
  | IoErr e => (rs', IoErr e)
  | IoOk data0 =>
      let data := firstn (List.length (input_buffer st)) data0 in
      (rs', IoOk (data, overwrite_prefix data0 (input_buffer st)))
  end.

(** One pass through the body of [loop { ... }]. *)
Definition body (st : LoopState) : Step * list Event :=
  let '(rs', r) := read_into st in
  match r with
  | IoErr e => (Return (Io e), [EvReadErr e])
  | IoOk (data, inbuf) =>
      let input_len := Z.of_nat (List.length data) in
      let st1 := {| ls_input := rs'; ls_engine := ls_engine st;
                    ls_output := ls_output st; input_buffer := inbuf;
                    output_buffer := output_buffer st;
                    total_consumed_samples := total_consumed_samples st;
                    total_written_bytes := total_written_bytes st |} in
      if input_len =? 0 then (Break st1, [EvRead data])
      else
        let input_desc := {| numBufs := 1; bufferIdentifier := IN_AUDIO_DATA;
                             bufSize := to_i32 input_len; bufElSize := size_of_i16;
                             bufRegion := inbuf |} in
        let output_desc := {| numBufs := 1; bufferIdentifier := OUT_BITSTREAM_DATA;
                              bufSize := to_i32 (Z.of_nat (List.length (output_buffer st)));
                              bufElSize := size_of_i16;
                              bufRegion := output_buffer st |} in
        let in_args := {| in_numInSamples := Z.quot (to_i32 input_len) 2;
                          numAncBytes := 0 |} in
        let '(es', (c, out_args, outbuf)) :=
          process (ls_engine st) input_desc output_desc in_args in
        let evs := [EvRead data; EvProcess input_desc output_desc in_args c out_args] in
        let outbuf := overwrite_prefix outbuf (output_buffer st) in
        let st2 := {| ls_input := rs'; ls_engine := es';
                      ls_output := ls_output st; input_buffer := inbuf;
                      output_buffer := outbuf;
                      total_consumed_samples := total_consumed_samples st;
                      total_written_bytes := total_written_bytes st |} in
        if negb (c =? AACENC_OK) then
          if c =? AACENC_ENCODE_EOF then (Break st2, evs)
          else (Return (FdkAac c), evs)
        else
          let input_consumed := to_usize (out_numInSamples out_args) in
          let output_size := to_usize (numOutBytes out_args) in
          if Z.of_nat (List.length outbuf) <? output_size then (Panic, evs)
          else
            let offered := firstn (Z.to_nat output_size) outbuf in
            let '(ws', w) := write (ls_output st) offered in
            match w with
            | IoErr e => (Return (Io e), evs ++ [EvWrite offered w])
            | IoOk _ =>
                (Continue {| ls_input := rs'; ls_engine := es'; ls_output := ws';
                             input_buffer := inbuf; output_buffer := outbuf;
                             total_consumed_samples :=
                               usize_add (total_consumed_samples st) input_consumed;
                             total_written_bytes :=
                               usize_add (total_written_bytes st) output_size |},
                 evs ++ [EvWrite offered w])
            end
  end.

Definition finish (st : LoopState) : EncodeInfo :=
  {| output_size := total_written_bytes st;
     input_consumed := total_consumed_samples st |}.

(** [loop], run for at most [fuel] iterations ([None] when they run out). *)
Fixpoint run_loop (fuel : nat) (st : LoopState) : option (EncodeOutcome * list Event) :=
  match fuel with
  | O => None
  | S fuel' =>
      let head := EvLoopHead (total_consumed_samples st) (total_written_bytes st) in
      let '(s, evs) := body st in
      match s with
      | Continue st' =>
          match run_loop fuel' st' with
          | Some (o, t) => Some (o, head :: evs ++ t)
          | None => None
          end
      | Break st' => Some (Done (finish st'), head :: evs)
      | Return e => Some (Failed e, head :: evs)
      | Panic => Some (Panicked, head :: evs)
      end
  end.

Definition channels : Z := 2.

(** [Encoder::encode]. *)
Definition encode (fuel : nat) (rs : RS) (es : ES) (ws : WS)
  : option (EncodeOutcome * list Event) :=
  let '(es1, (c, frameLength)) := info es in
  match check c with
  | Err e => Some (Failed e, [EvInfo c frameLength])
  | Ok _ =>
      let buffer_len := 2 * channels * frameLength in
      let st := {| ls_input := rs; ls_engine := es1; ls_output := ws;
                   input_buffer := repeat Byte.x00 (Z.to_nat buffer_len);
                   output_buffer := repeat Byte.x00 (Z.to_nat buffer_len);
                   total_consumed_samples := 0; total_written_bytes := 0 |} in
      match run_loop fuel st with
      | Some (o, t) => Some (o, EvInfo c frameLength :: t)
      | None => None
      end
  end.

End Loop.
End Loop.

(** ** Reading a run *)

(** The bytes the sink has taken: by the contract of [Write::write],
    [Ok(n)] means that the first [n] bytes of the offered slice were
    written. *)
Fixpoint sink_received (t : list Event) : list byte :=
  match t with
  | [] => []
  | EvWrite offered (IoOk n) :: t' => firstn (Z.to_nat n) offered ++ sink_received t'
  | _ :: t' => sink_received t'
  end.

(** The number of data calls of [aacEncEncode]. *)
Fixpoint process_count (t : list Event) : nat :=
  match t with
  | [] => O
  | EvProcess _ _ _ _ _ :: t' => S (process_count t')
  | _ :: t' => process_count t'
  end.

(** The bytes read from the input source, in total. *)
Fixpoint read_total (t : list Event) : Z :=
  match t with
  | [] => 0
  | EvRead data :: t' => Z.of_nat (List.length data) + read_total t'
  | _ :: t' => read_total t'
  end.

(** The running totals at the top of each iteration. *)
Fixpoint loop_heads (t : list Event) : list (Z * Z) :=
  match t with
  | [] => []
  | EvLoopHead c w :: t' => (c, w) :: loop_heads t'
  | _ :: t' => loop_heads t'
  end.

(** The totals at the top of the last iteration begun. *)
Fixpoint last_head (t : list Event) : option (Z * Z) :=
  match t with
  | [] => None
  | EvLoopHead c w :: t' =>
      match last_head t' with
      | Some h => Some h
      | None => Some (c, w)
      end
  | _ :: t' => last_head t'
  end.

Definition info_of (h : Z * Z) : EncodeInfo :=
  {| input_consumed := fst h; output_size := snd h |}.

(** What the engine is handed on a data call, for [len] bytes read into an
    input buffer of [lin] bytes and an output buffer of [lout] bytes. *)
Definition descriptors_ok (lin lout : nat) (data : list byte)
  (d1 d2 : BufDesc) (ia : InArgs) : Prop :=
  let n := Z.of_nat (List.length data) in
  numBufs d1 = 1 /\ bufferIdentifier d1 = IN_AUDIO_DATA /\
  bufSize d1 = to_i32 n /\ bufElSize d1 = size_of_i16 /\
  List.length (bufRegion d1) = lin /\ firstn (List.length data) (bufRegion d1) = data /\
  (List.length data <= lin)%nat /\
  in_numInSamples ia = Z.quot (to_i32 n) 2 /\ numAncBytes ia = 0 /\
  numBufs d2 = 1 /\ bufferIdentifier d2 = OUT_BITSTREAM_DATA /\
  bufSize d2 = to_i32 (Z.of_nat lout) /\ bufElSize d2 = size_of_i16 /\
  List.length (bufRegion d2) = lout.

(** Each pair of totals is below or equal to the next one. *)
Fixpoint nondecreasing (l : list (Z * Z)) : Prop :=
  match l with
  | (c, w) :: ((c', w') :: _) as l' => c <= c' /\ w <= w' /\ nondecreasing l'
  | _ => True
  end.

(** The engine's contract on a data call that returns [AACENC_OK]: it
    reports at most the offered samples as consumed, and not a negative
    number. *)
Definition consumed_within_offer (ev : Event) : Prop :=
  match ev with
  | EvProcess _ _ ia c oa =>
      c = AACENC_OK -> 0 <= out_numInSamples oa <= in_numInSamples ia
  | _ => True
  end.

(** The engine reports a non-negative [numInSamples] (an [INT]) on a data
    call that returns [AACENC_OK]. *)
Definition reports_nonneg (ev : Event) : Prop :=
  match ev with
  | EvProcess _ _ _ c oa => c = AACENC_OK -> 0 <= out_numInSamples oa < 2 ^ 31
  | _ => True
  end.

(** The totals a run ends with, if it ends with [Ok]. *)
Definition final_totals (o : EncodeOutcome) : list (Z * Z) :=
  match o with
  | Done i => [(input_consumed i, output_size i)]
  | _ => []
  end.

(** ** Scripted collaborators for concrete runs *)

(** An input source that returns the given chunks, then [Ok(0)]. *)
Definition script_read (s : list (list byte)) (_ : nat) : list (list byte) * io_result (list byte) :=
  match s with
  | [] => ([], IoOk [])
  | c :: s' => (s', IoOk c)
  end.

(** An engine reporting the frame length [fl], and answering its data
    calls from a script, then with [AACENC_ENCODE_EOF]. *)
Definition script_info (fl : Z) (s : list (Z * OutArgs * list byte)) :=
  (s, (AACENC_OK, fl)).

Definition script_process (s : list (Z * OutArgs * list byte)) (_ _ : BufDesc) (_ : InArgs)
  : list (Z * OutArgs * list byte) * (Z * OutArgs * list byte) :=
  match s with
  | [] => ([], (AACENC_ENCODE_EOF, {| numOutBytes := 0; out_numInSamples := 0 |}, []))
  | r :: s' => (s', r)
  end.

(** Sinks: one that takes every slice whole, one that takes at most one
    byte per call (as a pipe or socket may), and one that fails. *)
Definition full_sink (_ : unit) (b : list byte) : unit * io_result Z :=
  (tt, IoOk (Z.of_nat (List.length b))).

Definition one_byte_sink (_ : unit) (b : list byte) : unit * io_result Z :=
  (tt, IoOk (Z.min 1 (Z.of_nat (List.length b)))).

Definition broken_sink (_ : unit) (_ : list byte) : unit * io_result Z :=
  (tt, IoErr (mk_io_error 32)).

Definition run_script (fuel : nat) (fl : Z) (chunks : list (list byte))
  (answers : list (Z * OutArgs * list byte)) (sink : unit -> list byte -> unit * io_result Z) :=
  Loop.encode script_read (script_info fl) script_process sink fuel chunks answers tt.

(** A concrete construction engine: every call succeeds except the one
    with the given index (counting from 0). *)
Definition failing_at (k : nat) (n : nat) (_ : ConfCall) : nat * Z :=
  (S n, if Nat.eqb n k then AACENC_INVALID_CONFIG else AACENC_OK).

(** An engine answering every data call with [AACENC_OK], taking every
    offered sample and emitting one byte when the output buffer has room. *)
Definition steady_process (s : unit) (_ d2 : BufDesc) (ia : InArgs)
  : unit * (Z * OutArgs * list byte) :=
  (s, (AACENC_OK,
       {| numOutBytes := Z.min 1 (Z.of_nat (List.length (bufRegion d2)));
          out_numInSamples := in_numInSamples ia |},
       [Byte.x01])).

Definition steady_info (fl : Z) (s : unit) : unit * (Z * Z) := (s, (AACENC_OK, fl)).

(** The outcome and the trace of a run, read off its result. *)
Definition outcome_of (r : option (EncodeOutcome * list Event)) : EncodeOutcome :=
  match r with Some (o, _) => o | None => Panicked end.

Definition trace_of (r : option (EncodeOutcome * list Event)) : list Event :=
  match r with Some (_, t) => t | None => [] end.

Definition out_args (n s : Z) : OutArgs := {| numOutBytes := n; out_numInSamples := s |}.

(** Concrete runs, all with a frame length of 1 (buffers of 4 bytes). *)

(** One chunk, then the engine reports [AACENC_ENCODE_EOF]. *)
Definition eof_run := run_script 5 1 [[Byte.x01; Byte.x02]] [] full_sink.

(** One chunk, then the engine reports [AACENC_ENCODE_ERROR]. *)
Definition error_run :=
  run_script 5 1 [[Byte.x01; Byte.x02]] [(AACENC_ENCODE_ERROR, out_args 0 0, [])] full_sink.

(** A full chunk of 4 bytes, encoded to 3 bytes. *)
Definition full_read_run :=
  run_script 5 1 [[Byte.x01; Byte.x02; Byte.x03; Byte.x04]]
    [(AACENC_OK, out_args 3 2, [Byte.x01; Byte.x02; Byte.x03])] full_sink.

(** A short read of 3 bytes (an odd count). *)
Definition short_read_run :=
  run_script 5 1 [[Byte.x01; Byte.x02; Byte.x03]]
    [(AACENC_OK, out_args 2 1, [Byte.x07; Byte.x08])] full_sink.

(** The run of [full_read_run] into a sink that takes one byte per call. *)
Definition short_write_run :=
  run_script 5 1 [[Byte.x01; Byte.x02; Byte.x03; Byte.x04]]
    [(AACENC_OK, out_args 3 2, [Byte.x01; Byte.x02; Byte.x03])] one_byte_sink.

(** Two chunks and an engine that always succeeds, into a failing sink. *)
Definition broken_sink_run :=
  Loop.encode script_read (steady_info 1) steady_process broken_sink 5
    [[Byte.x01; Byte.x02]; [Byte.x03; Byte.x04]] tt tt.

(** Two chunks, the second answered with a consumed count of [-1]. *)
Definition wrapping_run :=
  run_script 5 1 [[Byte.x01; Byte.x02]; [Byte.x03; Byte.x04]]
    [(AACENC_OK, out_args 0 1, []); (AACENC_OK, out_args 0 (-1), [])] full_sink.

(** One chunk of 2 bytes (1 sample offered), answered with a consumed
    count of [-1]. *)
Definition negative_report_run :=
  run_script 5 1 [[Byte.x01; Byte.x02]] [(AACENC_OK, out_args 0 (-1), [])] full_sink.

(** The sum of a field of [OutArgs], converted [as usize], over the data
    calls that returned [AACENC_OK]. *)
Fixpoint ok_sum (f : OutArgs -> Z) (t : list Event) : Z :=
  match t with
  | [] => 0
  | EvProcess _ _ _ c oa :: t' => (if c =? AACENC_OK then to_usize (f oa) else 0) + ok_sum f t'
  | _ :: t' => ok_sum f t'
  end.

(** The number of reads that returned at least one byte. *)
Fixpoint nonempty_reads (t : list Event) : nat :=
  match t with
  | [] => O
  | EvRead (_ :: _) :: t' => S (nonempty_reads t')
  | _ :: t' => nonempty_reads t'
  end.

(** Every [write] of the run took the whole slice it was offered. *)
Definition whole_write (ev : Event) : Prop :=
  match ev with
  | EvWrite offered w => w = IoOk (Z.of_nat (List.length offered))
  | _ => True
  end.


(** An input source whose [read] fails. *)
Definition failing_read (s : list (list byte)) (_ : nat) : list (list byte) * io_result (list byte) :=
  (s, IoErr (mk_io_error 5)).


Definition read_error_run :=
  Loop.encode failing_read (script_info 1) script_process full_sink 5 [[Byte.x01; Byte.x02]] [] tt.

(** A successful data call reporting 5 output bytes for a 4-byte buffer. *)
Definition oversize_run :=
  run_script 5 1 [[Byte.x01; Byte.x02]] [(AACENC_OK, out_args 5 1, [])] full_sink.

(** Two chunks, both encoded, then the engine reports [AACENC_ENCODE_EOF]. *)
Definition two_frames_run :=
  run_script 5 1 [[Byte.x01; Byte.x02; Byte.x03; Byte.x04]; [Byte.x05; Byte.x06]]
    [(AACENC_OK, out_args 3 2, [Byte.x0a; Byte.x0b; Byte.x0c]);
     (AACENC_OK, out_args 1 1, [Byte.x0d])] full_sink.

(** * Properties *)

(** ** Construction *)

Section ConfigProofs.
Context {CS : Type} (engine : CS -> ConfCall -> CS * Z).

Lemma check_call_eq : forall c s log,
  Config.check_call engine c (s, log) =
  let '(s', r) := engine s c in (check r, (s', log ++ [(c, r)])).
Proof.
  intros c s log. unfold Config.check_call, Config.cbind, Config.engine_call.
  destruct (engine s c) as [s' r]. reflexivity.
Qed.

Lemma check_seq_cons : forall c cs st,
  Config.check_seq engine (c :: cs) st =
  Config.cbind (Config.check_call engine c) (fun _ => Config.check_seq engine cs) st.
Proof.
  intros c [|c' cs] [s log]; [|reflexivity].
  simpl. unfold Config.cbind at 1.
  destruct (Config.check_call engine c (s, log)) as [[[]|e] st']; reflexivity.
Qed.

Lemma check_seq_spec : forall cs s log,
  match Config.check_seq engine cs (s, log) with
  | (r, (_, log')) =>
      exists pre, log' = log ++ pre /\
        ((r = Ok tt /\ map fst pre = cs /\ all_ok pre)
         \/ (exists pre0 c e rest, pre = pre0 ++ [(c, e)] /\ all_ok pre0 /\
               e <> AACENC_OK /\ cs = map fst pre0 ++ c :: rest /\ r = Err (FdkAac e)))
  end.
Proof.
  induction cs as [|c cs IH]; intros s log.
  - exists []. rewrite app_nil_r. split; [reflexivity|].
    left. repeat split. constructor.
  - rewrite check_seq_cons. unfold Config.cbind at 1. rewrite check_call_eq.
    destruct (engine s c) as [s1 r1] eqn:Ec. unfold check.
    destruct (Z.eqb_spec r1 AACENC_OK) as [Hok|Hko].
    + specialize (IH s1 (log ++ [(c, r1)])).
      destruct (Config.check_seq engine cs (s1, log ++ [(c, r1)])) as [r [s' log']].
      destruct IH as [pre [Hlog Hcases]].
      exists ((c, r1) :: pre). split; [rewrite Hlog, <- app_assoc; reflexivity|].
      destruct Hcases as [[Hr [Hm Hall]] | [pre0 [c' [e [rest [Hp [Hall [He [Hcs Hr]]]]]]]]].
      * left. repeat split; [exact Hr | simpl; rewrite Hm; reflexivity | constructor; auto].
      * right. exists ((c, r1) :: pre0), c', e, rest.
        repeat split; auto.
        -- rewrite Hp. reflexivity.
        -- constructor; auto.
        -- simpl. rewrite Hcs. reflexivity.
    + exists [(c, r1)]. split; [reflexivity|].
      right. exists [], c, r1, cs. repeat split; auto. constructor.
Qed.

Definition body_calls (p : EncoderParams) : list ConfCall :=
  tl (spec_config_calls p).

Lemma cbind_ext : forall A B (m m' : @Config.CM CS A) (k k' : A -> @Config.CM CS B) st,
  (forall st, m st = m' st) -> (forall a st, k a st = k' a st) ->
  Config.cbind m k st = Config.cbind m' k' st.
Proof.
  intros A B m m' k k' st Hm Hk. unfold Config.cbind.
  rewrite Hm. destruct (m' st) as [[a|e] st']; auto.
Qed.

Lemma cbind_assoc : forall A B C (m : @Config.CM CS A) (k1 : A -> @Config.CM CS B)
  (k2 : B -> @Config.CM CS C) st,
  Config.cbind (Config.cbind m k1) k2 st = Config.cbind m (fun a => Config.cbind (k1 a) k2) st.
Proof.
  intros. unfold Config.cbind. destruct (m st) as [[a|e] st']; reflexivity.
Qed.

Lemma new_body_seq : forall p st,
  Config.new_body engine p st = Config.check_seq engine (body_calls p) st.
Proof.
  intros [[b| | | | |] sr tp] st; try reflexivity.
  unfold Config.new_body, body_calls. simpl.
  apply cbind_ext; [reflexivity|]. intros _ st1.
  rewrite cbind_assoc. apply cbind_ext; reflexivity.
Qed.

End ConfigProofs.

(** C3: [Encoder::new] issues [aacEncOpen], then the parameter calls in the
    order profile, bit-rate (for [Cbr b] the bit-rate [b] then the mode 0,
    for a variable tier only its mode 1 to 5), sample rate, transport
    (ADTS 2, raw 0), SBR off and channel mode 2, then the single commit
    call with null buffers last.  When every call succeeds the encoder is
    built after exactly this sequence; otherwise the first failing call
    ends construction with that call's code, after only successful calls
    of the sequence, and no other call follows except the release of the
    handle by [Drop] (when the handle had been opened). *)
Theorem new_issues_calls_in_order :
  forall (CS : Type) (engine : CS -> ConfCall -> CS * Z) (params : EncoderParams) (s0 : CS),
  match Config.new engine params (s0, []) with
  | (r, (_, log)) =>
      (r = Ok mkEncoder /\ map fst log = spec_config_calls params /\ all_ok log)
      \/ (exists pre c e,
            r = Err (FdkAac e) /\ e <> AACENC_OK /\ all_ok pre /\
            (exists rest, spec_config_calls params = map fst pre ++ c :: rest) /\
            ((pre = [] /\ log = [(c, e)])
             \/ (pre <> [] /\ exists z, log = pre ++ [(c, e); (CClose, z)])))
  end.
Proof.
  intros CS engine params s0.
  unfold Config.new, Config.alloc, Config.cbind at 1.
  rewrite check_call_eq. destruct (engine s0 (COpen 0 2)) as [s1 r1] eqn:Eo.
  cbn [app]. unfold check at 1. destruct (Z.eqb_spec r1 AACENC_OK) as [Hok|Hko].
  - rewrite new_body_seq.
    pose proof (check_seq_spec engine (body_calls params) s1 [(COpen 0 2, r1)]) as H.
    destruct (Config.check_seq engine (body_calls params) (s1, [(COpen 0 2, r1)]))
      as [r [s2 log2]].
    destruct H as [pre [Hlog Hcases]]. subst log2.
    destruct Hcases as [[Hr [Hm Hall]] | [pre0 [c [e [rest [Hp [Hall [He [Hcs Hr]]]]]]]]].
    + subst r. cbn iota beta. left. repeat split.
      * simpl. rewrite Hm. reflexivity.
      * constructor; auto.
    + subst r pre. unfold Config.engine_call.
      destruct (engine s2 CClose) as [s3 z]. cbn iota beta.
      right. exists ((COpen 0 2, r1) :: pre0), c, e.
      repeat split; auto.
      * constructor; auto.
      * exists rest. unfold spec_config_calls. simpl.
        change (spec_config_calls params) with (COpen 0 2 :: body_calls params) in *.
        unfold body_calls in Hcs. simpl in Hcs. rewrite Hcs. reflexivity.
      * right. split; [discriminate|]. exists z.
        simpl. rewrite <- app_assoc. reflexivity.
  - cbn iota beta. right. exists [], (COpen 0 2), r1. repeat split; auto.
    + constructor.
    + exists (body_calls params). reflexivity.
Qed.

(** ** Errors *)

(** C9: an I/O error has code 0 and message "io error"; 0 is the engine's
    OK code, not one of its error codes (nor its end-of-stream code), and
    only an engine error carries its own numeric code. *)
Theorem io_error_code_is_ok_code : forall e : io_error,
  code (Io e) = 0 /\ message (Io e) = "io error" /\ code (Io e) = AACENC_OK /\
  (forall c, In c known_codes -> code (Io e) <> c) /\
  code (Io e) <> AACENC_ENCODE_EOF /\
  (forall c, code (FdkAac c) = c).
Proof.
  intros e. repeat split; try reflexivity; try discriminate.
  intros c Hin. simpl in Hin.
  repeat (destruct Hin as [Hc|Hin]; [subst c; discriminate|]). contradiction.
Qed.

(** ** One iteration of the loop *)

Ltac peel H :=
  lazymatch type of H with
  | _ :: _ = ?p ++ _ :: _ =>
      let Ha := fresh "Ha" in
      destruct p as [|? ?]; simpl in H; injection H as Ha H;
      [ try discriminate Ha | try discriminate Ha; try peel H ]
  | [] = ?p ++ _ :: _ => destruct p; simpl in H; discriminate H
  end.

Section LoopProofs.
Context {RS : Type} (read : RS -> nat -> RS * io_result (list byte)).
Context {ES : Type} (info : ES -> ES * (Z * Z))
  (process : ES -> BufDesc -> BufDesc -> InArgs -> ES * (Z * OutArgs * list byte)).
Context {WS : Type} (write : WS -> list byte -> WS * io_result Z).

Local Abbreviation LoopState := (@Loop.LoopState RS ES WS).
Local Abbreviation body := (Loop.body read process write).
Local Abbreviation run_loop := (Loop.run_loop read process write).

Definition same_totals (a b : LoopState) : Prop :=
  Loop.total_consumed_samples a = Loop.total_consumed_samples b /\
  Loop.total_written_bytes a = Loop.total_written_bytes b.

Definition in_len (st : LoopState) : nat := List.length (Loop.input_buffer st).
Definition out_len (st : LoopState) : nat := List.length (Loop.output_buffer st).

Lemma overwrite_prefix_length : forall w old,
  List.length (overwrite_prefix w old) = List.length old.
Proof.
  intros w old. unfold overwrite_prefix.
  rewrite length_app, length_skipn, length_firstn. lia.
Qed.

Lemma overwrite_prefix_firstn : forall w old,
  firstn (List.length (firstn (List.length old) w)) (overwrite_prefix w old)
  = firstn (List.length old) w.
Proof.
  intros w old. unfold overwrite_prefix.
  rewrite firstn_app, Nat.sub_diag, firstn_O, app_nil_r, firstn_all. reflexivity.
Qed.

(** What one pass through the body does. *)
Lemma body_cases : forall st,
  match body st with
  | (s, evs) =>
      (exists e, s = Loop.Return (Io e) /\ evs = [EvReadErr e])
      \/ (exists st', s = Loop.Break st' /\ evs = [EvRead []] /\ same_totals st' st)
      \/ (exists data r1 c oa rest,
            evs = EvRead data
                  :: EvProcess
                       {| numBufs := 1; bufferIdentifier := IN_AUDIO_DATA;
                          bufSize := to_i32 (Z.of_nat (List.length data));
                          bufElSize := 2; bufRegion := r1 |}
                       {| numBufs := 1; bufferIdentifier := OUT_BITSTREAM_DATA;
                          bufSize := to_i32 (Z.of_nat (out_len st));
                          bufElSize := 2; bufRegion := Loop.output_buffer st |}
                       {| in_numInSamples := Z.quot (to_i32 (Z.of_nat (List.length data))) 2;
                          numAncBytes := 0 |}
                       c oa :: rest /\
            data <> [] /\ (List.length data <= in_len st)%nat /\
            List.length r1 = in_len st /\ firstn (List.length data) r1 = data /\
            ((c = AACENC_ENCODE_EOF /\ rest = [] /\
                exists st', s = Loop.Break st' /\ same_totals st' st)
             \/ (c <> AACENC_OK /\ c <> AACENC_ENCODE_EOF /\ rest = [] /\ s = Loop.Return (FdkAac c))
             \/ (c = AACENC_OK /\ rest = [] /\ s = Loop.Panic)
             \/ (c = AACENC_OK /\ 0 <= to_usize (numOutBytes oa) <= Z.of_nat (out_len st) /\
                 exists offered w, rest = [EvWrite offered w] /\
                 ((exists e, w = IoErr e /\ s = Loop.Return (Io e))
                  \/ (exists n st', w = IoOk n /\ s = Loop.Continue st' /\
                        Loop.total_consumed_samples st' =
                          usize_add (Loop.total_consumed_samples st) (to_usize (out_numInSamples oa)) /\
                        Loop.total_written_bytes st' =
                          usize_add (Loop.total_written_bytes st) (to_usize (numOutBytes oa)) /\
                        in_len st' = in_len st /\ out_len st' = out_len st)))))
  end.
Proof.
  intros st. unfold Loop.body, Loop.read_into.
  destruct (read (Loop.ls_input st) (List.length (Loop.input_buffer st))) as [rs' [data0|e]].
  2:{ left. exists e. split; reflexivity. }
  cbn zeta.
  set (data := firstn (List.length (Loop.input_buffer st)) data0).
  destruct (Z.eqb_spec (Z.of_nat (List.length data)) 0) as [H0|H0].
  { right; left. eexists. split; [reflexivity|]. split; [|split; reflexivity].
    destruct data; [reflexivity|discriminate]. }
  destruct (process _ _ _ _) as [es' [[c oa] outw]].
  assert (Hne : data <> []) by (intros Hd; apply H0; rewrite Hd; reflexivity).
  assert (Hlen : (List.length data <= in_len st)%nat)
    by (unfold data, in_len; rewrite length_firstn; lia).
  assert (Hr1 : List.length (overwrite_prefix data0 (Loop.input_buffer st)) = in_len st)
    by apply overwrite_prefix_length.
  assert (Hpre : firstn (List.length data) (overwrite_prefix data0 (Loop.input_buffer st)) = data)
    by apply overwrite_prefix_firstn.
  assert (Hob : List.length (overwrite_prefix outw (Loop.output_buffer st)) = out_len st)
    by apply overwrite_prefix_length.
  assert (Hnn : 0 <= to_usize (numOutBytes oa))
    by (unfold to_usize, two64; apply Z.mod_pos_bound; lia).
  destruct (Z.eqb_spec c AACENC_OK) as [Hok|Hko]; cbn [negb].
  - subst c.
    destruct (Z.ltb_spec (Z.of_nat (List.length (overwrite_prefix outw (Loop.output_buffer st))))
                (to_usize (numOutBytes oa))) as [Hp|Hp].
    + right; right. exists data, (overwrite_prefix data0 (Loop.input_buffer st)), AACENC_OK, oa.
      eexists. split; [reflexivity|]. repeat (split; [assumption|]).
      right; right; left. repeat split.
    + destruct (write (Loop.ls_output st) _) as [ws' [n|e]] eqn:Ew;
        right; right; exists data, (overwrite_prefix data0 (Loop.input_buffer st)), AACENC_OK, oa;
        eexists; (split; [reflexivity|]); repeat (split; [assumption|]);
        right; right; right; (split; [reflexivity|]); (split; [lia|]).
      * eexists _, _. split; [reflexivity|]. right.
        eexists _, _. split; [reflexivity|]. split; [reflexivity|].
        cbn. split; [reflexivity|]. split; [reflexivity|].
        unfold in_len, out_len. cbn. split; [exact Hr1|exact Hob].
      * eexists _, _. split; [reflexivity|]. left. eexists. split; reflexivity.
  - destruct (Z.eqb_spec c AACENC_ENCODE_EOF) as [Heof|Hneof];
      right; right; exists data, (overwrite_prefix data0 (Loop.input_buffer st)), c, oa.
    + eexists. split; [reflexivity|]. repeat (split; [assumption|]).
      left. split; [assumption|]. split; [reflexivity|].
      eexists. split; [reflexivity|]. split; reflexivity.
    + eexists. split; [reflexivity|]. repeat (split; [assumption|]).
      right; left. repeat split; assumption.
Qed.

Lemma last_head_app : forall l1 l2 h,
  last_head l2 = Some h -> last_head (l1 ++ l2) = Some h.
Proof.
  induction l1 as [|ev l1 IH]; intros l2 h H; [exact H|].
  simpl. rewrite (IH _ _ H). destruct ev; reflexivity.
Qed.

Lemma run_loop_none_at_zero : forall st, run_loop 0 st = None.
Proof. reflexivity. Qed.

Ltac split_body st :=
  let Hb := fresh "Hb" in
  pose proof (body_cases st) as Hb;
  destruct (body st) as [s evs];
  destruct Hb as [[e [-> ->]] | [[st' [-> [-> Htot]]] |
    [data [r1 [c' [oa' [rest [-> [Hne [Hlen [Hr1 [Hpre Hk]]]]]]]]]]]].

(** A data call that does not return [AACENC_OK] is the last event of the
    run: on [AACENC_ENCODE_EOF] the run ends with the totals of the top of
    its iteration, on any other code with that code as the error. *)
Lemma run_loop_terminal : forall fuel st o t pre d1 d2 ia c oa post,
  run_loop fuel st = Some (o, t) ->
  t = pre ++ EvProcess d1 d2 ia c oa :: post ->
  c <> AACENC_OK ->
  post = [] /\
  (c = AACENC_ENCODE_EOF -> exists h, last_head pre = Some h /\ o = Done (info_of h)) /\
  (c <> AACENC_ENCODE_EOF -> o = Failed (FdkAac c)).
Proof.
  induction fuel as [|fuel IH]; intros st o t pre d1 d2 ia c oa post Hrun Ht Hc;
    [discriminate|].
  simpl in Hrun. split_body st.
  - injection Hrun as <- <-. peel Ht.
  - injection Hrun as <- <-. peel Ht.
  - destruct Hk as [[Heof [-> [st' [-> Htot]]]] | [[Hko [Hne' [-> ->]]] |
                   [[Hok [-> ->]] | [Hok [Hrange [offered [w [-> Hw]]]]]]]].
    + injection Hrun as <- <-. peel Ht; subst.
      split; [reflexivity|]. split; [|contradiction].
      intros _. exists (Loop.total_consumed_samples st, Loop.total_written_bytes st).
      split; [reflexivity|]. destruct Htot as [H1 H2].
      unfold Loop.finish, info_of. rewrite H1, H2. reflexivity.
    + injection Hrun as <- <-. peel Ht; subst.
      split; [reflexivity|]. split; [contradiction|]. reflexivity.
    + injection Hrun as <- <-. peel Ht; subst. contradiction.
    + destruct Hw as [[e [-> ->]] | [n [st' [-> [-> [Htc [Htw [Hil Hol]]]]]]]].
      * injection Hrun as <- <-. peel Ht; subst. contradiction.
      * destruct (run_loop fuel st') as [[o' t']|] eqn:Hr; [|discriminate].
        injection Hrun as <- <-. simpl in Ht. peel Ht.
        -- subst; contradiction.
        -- subst. destruct (IH _ _ _ _ _ _ _ _ _ _ Hr eq_refl Hc) as [Hp [Heof Herr]].
           split; [exact Hp|]. split; [|exact Herr].
           intros He. destruct (Heof He) as [h [Hh Ho]]. exists h. split; [|exact Ho].
           simpl. rewrite Hh. reflexivity.
Qed.

(** A read of [data] is either the last event, when it is empty, and the
    run ends with the totals at the top of its iteration; or it is followed
    at once by a data call over what it read. *)
Lemma run_loop_read : forall fuel st o t pre data post,
  run_loop fuel st = Some (o, t) ->
  t = pre ++ EvRead data :: post ->
  (data = [] /\ post = [] /\ exists h, last_head pre = Some h /\ o = Done (info_of h))
  \/ (data <> [] /\ exists d1 d2 ia c oa post',
        post = EvProcess d1 d2 ia c oa :: post' /\
        descriptors_ok (in_len st) (out_len st) data d1 d2 ia).
Proof.
  induction fuel as [|fuel IH]; intros st o t pre dat post Hrun Ht; [discriminate|].
  simpl in Hrun. split_body st.
  - injection Hrun as <- <-. peel Ht.
  - injection Hrun as <- <-. peel Ht; subst.
    left. split; [reflexivity|]. split; [reflexivity|].
    exists (Loop.total_consumed_samples st, Loop.total_written_bytes st).
    split; [reflexivity|]. destruct Htot as [H1 H2].
    unfold Loop.finish, info_of. rewrite H1, H2. reflexivity.
  - assert (Hd : descriptors_ok (in_len st) (out_len st) data
               {| numBufs := 1; bufferIdentifier := IN_AUDIO_DATA;
                  bufSize := to_i32 (Z.of_nat (List.length data));
                  bufElSize := 2; bufRegion := r1 |}
               {| numBufs := 1; bufferIdentifier := OUT_BITSTREAM_DATA;
                  bufSize := to_i32 (Z.of_nat (out_len st));
                  bufElSize := 2; bufRegion := Loop.output_buffer st |}
               {| in_numInSamples := Z.quot (to_i32 (Z.of_nat (List.length data))) 2;
                  numAncBytes := 0 |})
      by (unfold descriptors_ok; cbn; repeat split; assumption).
    destruct Hk as [[Heof [-> [st' [-> Htot]]]] | [[Hko [Hne' [-> ->]]] |
                   [[Hok [-> ->]] | [Hok [Hrange [offered [w [-> Hw]]]]]]]];
      [| | | destruct Hw as [[e [-> ->]] | [n [st' [-> [-> [Htc [Htw [Hil Hol]]]]]]]]].
    1-4: injection Hrun as <- <-; peel Ht; subst; right; split; [assumption|];
         do 6 eexists; split; [reflexivity|exact Hd].
    destruct (run_loop fuel st') as [[o' t']|] eqn:Hr; [|discriminate].
    injection Hrun as <- <-. simpl in Ht. peel Ht; subst.
    + right. split; [assumption|]. do 6 eexists. split; [reflexivity|exact Hd].
    + destruct (IH _ _ _ _ _ _ Hr eq_refl) as [[Hd0 [Hp [h [Hh Ho]]]] | [Hd0 Hrest]].
      * left. split; [exact Hd0|]. split; [exact Hp|]. exists h. split; [|exact Ho].
        simpl. rewrite Hh. reflexivity.
      * right. split; [exact Hd0|]. rewrite Hil, Hol in Hrest. exact Hrest.
Qed.

(** Every data call comes right after a read. *)
Lemma run_loop_process_after_read : forall fuel st o t pre d1 d2 ia c oa post,
  run_loop fuel st = Some (o, t) ->
  t = pre ++ EvProcess d1 d2 ia c oa :: post ->
  exists pre' data, pre = pre' ++ [EvRead data].
Proof.
  induction fuel as [|fuel IH]; intros st o t pre d1 d2 ia c oa post Hrun Ht; [discriminate|].
  simpl in Hrun. split_body st.
  - injection Hrun as <- <-. peel Ht.
  - injection Hrun as <- <-. peel Ht.
  - destruct Hk as [[Heof [-> [st' [-> Htot]]]] | [[Hko [Hne' [-> ->]]] |
                   [[Hok [-> ->]] | [Hok [Hrange [offered [w [-> Hw]]]]]]]];
      [| | | destruct Hw as [[e [-> ->]] | [n [st' [-> [-> [Htc [Htw [Hil Hol]]]]]]]]].
    1-4: injection Hrun as <- <-; peel Ht; subst; eexists [_], _; reflexivity.
    destruct (run_loop fuel st') as [[o' t']|] eqn:Hr; [|discriminate].
    injection Hrun as <- <-. simpl in Ht. peel Ht; subst.
    + eexists [_], _. reflexivity.
    + destruct (IH _ _ _ _ _ _ _ _ _ _ Hr eq_refl) as [pre' [data' ->]].
      eexists (_ :: _ :: _ :: _ :: pre'), data'. reflexivity.
Qed.

Lemma to_i32_le : forall n, 0 <= n -> to_i32 n <= n.
Proof.
  intros n Hn. unfold to_i32, two32.
  pose proof (Z.mod_le n (2 ^ 32) Hn ltac:(lia)).
  pose proof (Z.mod_pos_bound n (2 ^ 32) ltac:(lia)).
  destruct (Z.ltb_spec (n mod 2 ^ 32) (2 ^ 31)); lia.
Qed.

Lemma to_i32_range : forall n, - 2 ^ 31 <= to_i32 n < 2 ^ 31.
Proof.
  intros n. unfold to_i32, two32.
  pose proof (Z.mod_pos_bound n (2 ^ 32) ltac:(lia)).
  destruct (Z.ltb_spec (n mod 2 ^ 32) (2 ^ 31)); lia.
Qed.

Lemma twice_offer_le : forall n, 0 <= n -> 2 * Z.quot (to_i32 n) 2 <= n.
Proof.
  intros n Hn. pose proof (to_i32_le n Hn).
  destruct (Z.le_gt_cases 0 (to_i32 n)) as [Hp|Hp].
  - pose proof (Z.mul_quot_le (to_i32 n) 2 Hp ltac:(lia)). lia.
  - pose proof (Z.mul_quot_ge (to_i32 n) 2 ltac:(lia) ltac:(lia)). lia.
Qed.

Lemma offer_lt : forall n, Z.quot (to_i32 n) 2 < 2 ^ 31.
Proof.
  intros n. pose proof (to_i32_range n).
  destruct (Z.le_gt_cases 0 (to_i32 n)) as [Hp|Hp].
  - pose proof (Z.mul_quot_le (to_i32 n) 2 Hp ltac:(lia)). lia.
  - pose proof (Z.mul_quot_ge (to_i32 n) 2 ltac:(lia) ltac:(lia)). lia.
Qed.

Lemma to_usize_small : forall x, 0 <= x < two64 -> to_usize x = x.
Proof. intros x Hx. unfold to_usize. apply Z.mod_small. exact Hx. Qed.

Lemma usize_add_le : forall a b, 0 <= a -> 0 <= b -> 0 <= usize_add a b <= a + b.
Proof.
  intros a b Ha Hb. unfold usize_add, two64.
  pose proof (Z.mod_pos_bound (a + b) (2 ^ 64) ltac:(lia)).
  pose proof (Z.mod_le (a + b) (2 ^ 64) ltac:(lia) ltac:(lia)). lia.
Qed.

Lemma read_total_nonneg : forall t, 0 <= read_total t.
Proof. induction t as [|[] t IH]; simpl; lia. Qed.

(** Under the engine's contract, twice the consumed total never exceeds the
    bytes read. *)
Lemma run_loop_consumed_bound : forall fuel st i t,
  run_loop fuel st = Some (Done i, t) ->
  Forall consumed_within_offer t ->
  0 <= Loop.total_consumed_samples st ->
  2 * input_consumed i <= 2 * Loop.total_consumed_samples st + read_total t.
Proof.
  induction fuel as [|fuel IH]; intros st i t Hrun HF H0; [discriminate|].
  simpl in Hrun. split_body st.
  - discriminate.
  - injection Hrun as <- <-. destruct Htot as [H1 _]. simpl. rewrite H1. lia.
  - destruct Hk as [[Heof [-> [st' [-> Htot]]]] | [[Hko [Hne' [-> ->]]] |
                   [[Hok [-> ->]] | [Hok [Hrange [offered [w [-> Hw]]]]]]]];
      [| | | destruct Hw as [[e [-> ->]] | [n [st' [-> [-> [Htc [Htw [Hil Hol]]]]]]]]];
      try discriminate.
    + injection Hrun as <- <-. destruct Htot as [H1 _]. simpl. rewrite H1.
      pose proof (read_total_nonneg []). lia.
    + destruct (run_loop fuel st') as [[o' t']|] eqn:Hr; [|discriminate].
      injection Hrun as Ho <-. subst o'. subst c'.
      simpl in HF. apply Forall_cons_iff in HF as [_ HF].
      apply Forall_cons_iff in HF as [_ HF].
      apply Forall_cons_iff in HF as [Hc HF].
      apply Forall_cons_iff in HF as [_ HF].
      simpl in Hc. specialize (Hc eq_refl).
      pose proof (twice_offer_le (Z.of_nat (List.length data)) ltac:(lia)).
      pose proof (offer_lt (Z.of_nat (List.length data))).
      rewrite to_usize_small in Htc by (unfold two64; lia).
      pose proof (usize_add_le (Loop.total_consumed_samples st) (out_numInSamples oa')
                    H0 ltac:(lia)).
      unfold usize_add in *.
      specialize (IH st' i t' Hr HF ltac:(lia)).
      cbn [read_total]. lia.
Qed.

(** Without wrap-around the totals at the tops of the iterations, then
    the returned ones, never decrease. *)
Lemma run_loop_monotone : forall fuel st o t,
  run_loop fuel st = Some (o, t) ->
  Forall reports_nonneg t ->
  0 <= Loop.total_consumed_samples st -> 0 <= Loop.total_written_bytes st ->
  Loop.total_consumed_samples st + Z.of_nat fuel * 2 ^ 31 < two64 ->
  Loop.total_written_bytes st + Z.of_nat fuel * Z.of_nat (out_len st) < two64 ->
  exists rest,
    loop_heads t ++ final_totals o =
      (Loop.total_consumed_samples st, Loop.total_written_bytes st) :: rest /\
    nondecreasing ((Loop.total_consumed_samples st, Loop.total_written_bytes st) :: rest).
Proof.
  induction fuel as [|fuel IH]; intros st o t Hrun HF Hc0 Hw0 Hcb Hwb; [discriminate|].
  simpl in Hrun. split_body st.
  - injection Hrun as <- <-. exists []. split; [reflexivity|exact I].
  - injection Hrun as <- <-. destruct Htot as [H1 H2].
    eexists. split; [reflexivity|]. simpl. rewrite H1, H2. lia.
  - destruct Hk as [[Heof [-> [st' [-> Htot]]]] | [[Hko [Hne' [-> ->]]] |
                   [[Hok [-> ->]] | [Hok [Hrange [offered [w [-> Hw]]]]]]]];
      [| | | destruct Hw as [[e [-> ->]] | [n [st' [-> [-> [Htc [Htw [Hil Hol]]]]]]]]].
    + injection Hrun as <- <-. destruct Htot as [H1 H2].
      eexists. split; [reflexivity|]. simpl. rewrite H1, H2. lia.
    + injection Hrun as <- <-. exists []. split; [reflexivity|exact I].
    + injection Hrun as <- <-. exists []. split; [reflexivity|exact I].
    + injection Hrun as <- <-. exists []. split; [reflexivity|exact I].
    + destruct (run_loop fuel st') as [[o' t']|] eqn:Hr; [|discriminate].
      injection Hrun as <- <-. subst c'.
      simpl in HF. apply Forall_cons_iff in HF as [_ HF].
      apply Forall_cons_iff in HF as [_ HF].
      apply Forall_cons_iff in HF as [Hc HF].
      apply Forall_cons_iff in HF as [_ HF].
      simpl in Hc. specialize (Hc eq_refl).
      rewrite to_usize_small in Htc by (unfold two64; lia).
      unfold usize_add in Htc, Htw.
      rewrite Z.mod_small in Htc by (unfold two64 in *; lia).
      rewrite Z.mod_small in Htw by (unfold two64 in *; nia).
      destruct (IH st' o' t' Hr HF) as [rest [Hh Hn]];
        [lia | lia | rewrite Htc; lia | rewrite Htw, Hol; nia |].
      exists (loop_heads t' ++ final_totals o').
      split; [reflexivity|].
      rewrite Htc, Htw in Hh, Hn. rewrite Hh. simpl. split; [lia|]. split; [lia|].
      exact Hn.
Qed.

Local Abbreviation encode := (Loop.encode read info process write).

Lemma firstn_prefix : forall (l1 l2 : list Event), firstn (List.length l1) (l1 ++ l2) = l1.
Proof.
  intros l1 l2. rewrite firstn_app, Nat.sub_diag, firstn_O, app_nil_r, firstn_all.
  reflexivity.
Qed.

(** [Encoder::encode] asks the engine for its frame length, then either
    fails with the engine's code or runs the loop from zeroed totals over
    two buffers of [2 * channels * frameLength] bytes. *)
Lemma encode_cases : forall fuel rs es ws o t,
  encode fuel rs es ws = Some (o, t) ->
  (exists c fl, c <> AACENC_OK /\ t = [EvInfo c fl] /\ o = Failed (FdkAac c))
  \/ (exists fl st t', t = EvInfo AACENC_OK fl :: t' /\ run_loop fuel st = Some (o, t') /\
        in_len st = Z.to_nat (2 * Loop.channels * fl) /\
        out_len st = Z.to_nat (2 * Loop.channels * fl) /\
        Loop.total_consumed_samples st = 0 /\ Loop.total_written_bytes st = 0).
Proof.
  intros fuel rs es ws o t H. unfold Loop.encode in H.
  destruct (info es) as [es1 [c fl]]. unfold check in H.
  destruct (Z.eqb_spec c AACENC_OK) as [->|Hc].
  - right. destruct (run_loop fuel _) as [[o' t']|] eqn:Hr; [|discriminate].
    injection H as <- <-. eexists fl, _, t'. split; [reflexivity|]. split; [exact Hr|].
    unfold in_len, out_len. cbn. rewrite !repeat_length. repeat split.
  - left. injection H as <- <-. exists c, fl. repeat split. exact Hc.
Qed.

Lemma encode_event_at : forall fuel rs es ws o t k ev,
  encode fuel rs es ws = Some (o, t) ->
  nth_error t k = Some ev ->
  (forall c fl, ev <> EvInfo c fl) ->
  exists fl st t' pre post,
    t = EvInfo AACENC_OK fl :: t' /\ run_loop fuel st = Some (o, t') /\
    in_len st = Z.to_nat (2 * Loop.channels * fl) /\
    out_len st = Z.to_nat (2 * Loop.channels * fl) /\
    Loop.total_consumed_samples st = 0 /\ Loop.total_written_bytes st = 0 /\
    t' = pre ++ ev :: post /\ k = S (List.length pre).
Proof.
  intros fuel rs es ws o t k ev H Hk Hev.
  destruct (encode_cases _ _ _ _ _ _ H) as [[c [fl [_ [-> _]]]] | [fl [st [t' [-> Hrest]]]]].
  - destruct k as [|[|k]]; simpl in Hk; try discriminate.
    injection Hk as Hk. exfalso. apply (Hev c fl). symmetry. exact Hk.
  - destruct k as [|k]; simpl in Hk.
    + injection Hk as Hk. exfalso. apply (Hev AACENC_OK fl). symmetry. exact Hk.
    + destruct (nth_error_split _ _ Hk) as [pre [post [Ht' Hlen]]].
      exists fl, st, t', pre, post. repeat split; try apply Hrest.
      * exact Ht'.
      * rewrite Hlen. reflexivity.
Qed.

Lemma last_head_firstn_event : forall fl t' pre ev post,
  t' = pre ++ ev :: post ->
  last_head (firstn (S (List.length pre)) (EvInfo AACENC_OK fl :: t')) = last_head pre.
Proof. intros fl t' pre ev post ->. simpl. rewrite firstn_prefix. reflexivity. Qed.

(** C2: if the engine answers a data call with [AACENC_ENCODE_EOF], that
    call is the last event of the run: nothing is written to the sink for
    it, the totals are not updated, no further data call follows, and
    [encode] returns [Ok] with the totals accumulated before that call
    (those at the top of its iteration). *)
Theorem eof_ends_encode_cleanly : forall fuel rs es ws o t k d1 d2 ia oa,
  encode fuel rs es ws = Some (o, t) ->
  nth_error t k = Some (EvProcess d1 d2 ia AACENC_ENCODE_EOF oa) ->
  List.length t = S k /\
  exists h, last_head (firstn k t) = Some h /\ o = Done (info_of h).
Proof.
  intros fuel rs es ws o t k d1 d2 ia oa H Hk.
  destruct (encode_event_at _ _ _ _ _ _ _ _ H Hk ltac:(discriminate))
    as [fl [st [t' [pre [post [-> [Hr [_ [_ [_ [_ [Ht' ->]]]]]]]]]]]].
  destruct (run_loop_terminal _ _ _ _ _ _ _ _ _ _ _ Hr Ht' ltac:(discriminate))
    as [-> [Heof _]].
  destruct (Heof eq_refl) as [h [Hh Ho]].
  split.
  - simpl. rewrite Ht', length_app. simpl. lia.
  - exists h. split; [|exact Ho]. rewrite (last_head_firstn_event fl t' pre _ [] Ht'). exact Hh.
Qed.

(** C5: a data call answered with any code other than [AACENC_OK] and
    [AACENC_ENCODE_EOF] is the last event of the run (no engine call, sink
    write or total update follows) and [encode] fails with [FdkAac] of that
    code, whose [code()] is the engine's number; the known codes have their
    own messages, every other code the message "Unknown error", and an I/O
    error is a different variant. *)
Theorem engine_error_ends_encode : forall fuel rs es ws o t k d1 d2 ia c oa,
  encode fuel rs es ws = Some (o, t) ->
  nth_error t k = Some (EvProcess d1 d2 ia c oa) ->
  c <> AACENC_OK -> c <> AACENC_ENCODE_EOF ->
  List.length t = S k /\ o = Failed (FdkAac c) /\ code (FdkAac c) = c /\
  (forall k' msg, In (k', msg) known_messages -> message (FdkAac k') = msg) /\
  (forall k', ~ In k' known_codes -> message (FdkAac k') = "Unknown error") /\
  (forall e, Io e <> FdkAac c).
Proof.
  intros fuel rs es ws o t k d1 d2 ia c oa H Hk Hok Heof.
  destruct (encode_event_at _ _ _ _ _ _ _ _ H Hk ltac:(discriminate))
    as [fl [st [t' [pre [post [-> [Hr [_ [_ [_ [_ [Ht' ->]]]]]]]]]]]].
  destruct (run_loop_terminal _ _ _ _ _ _ _ _ _ _ _ Hr Ht' Hok) as [-> [_ Herr]].
  split; [simpl; rewrite Ht', length_app; simpl; lia|].
  split; [exact (Herr Heof)|]. split; [reflexivity|].
  split; [|split; [|intros e; discriminate]].
  - intros k' msg Hin. simpl in Hin.
    repeat (destruct Hin as [Hin|Hin]; [injection Hin as <- <-; reflexivity|]).
    contradiction.
  - intros k' Hnin. unfold message.
    repeat match goal with
           | |- context [k' =? ?b] =>
               destruct (Z.eqb_spec k' b) as [->|_]; [exfalso; apply Hnin; simpl; tauto|]
           end.
    reflexivity.
Qed.

Lemma to_i32_small : forall x, 0 <= x < 2 ^ 31 -> to_i32 x = x.
Proof.
  intros x Hx. unfold to_i32, two32. rewrite Z.mod_small by lia.
  destruct (Z.ltb_spec x (2 ^ 31)); lia.
Qed.

Lemma nth_error_after : forall (pre : list Event) a b post,
  nth_error (pre ++ a :: b :: post) (S (List.length pre)) = Some b.
Proof.
  intros pre a b post. rewrite nth_error_app2 by lia.
  replace (S (List.length pre) - List.length pre)%nat with 1%nat by lia. reflexivity.
Qed.

(** The read at index [k] of a run, with the loop state of its iteration. *)
Lemma encode_read_at : forall fuel rs es ws o t k fl data,
  encode fuel rs es ws = Some (o, t) ->
  hd_error t = Some (EvInfo AACENC_OK fl) ->
  nth_error t k = Some (EvRead data) ->
  exists t' pre post, t = EvInfo AACENC_OK fl :: t' /\ t' = pre ++ EvRead data :: post /\
    k = S (List.length pre) /\
    ((data = [] /\ post = [] /\ exists h, last_head pre = Some h /\ o = Done (info_of h))
     \/ (data <> [] /\ exists d1 d2 ia c oa post',
           post = EvProcess d1 d2 ia c oa :: post' /\
           descriptors_ok (Z.to_nat (2 * Loop.channels * fl))
                          (Z.to_nat (2 * Loop.channels * fl)) data d1 d2 ia)).
Proof.
  intros fuel rs es ws o t k fl data H Hhd Hk.
  destruct (encode_event_at _ _ _ _ _ _ _ _ H Hk ltac:(discriminate))
    as [fl' [st [t' [pre [post [Ht [Hr [Hil [Hol [_ [_ [Ht' ->]]]]]]]]]]]].
  subst t. injection Hhd as <-.
  exists t', pre, post. split; [reflexivity|]. split; [exact Ht'|]. split; [reflexivity|].
  pose proof (run_loop_read _ _ _ _ _ _ _ Hr Ht') as R.
  rewrite Hil, Hol in R. exact R.
Qed.

(** C6: [encode] allocates an input and an output buffer of
    [2 * channels * frameLength] bytes each, with [channels = 2]; every
    non-empty read, short or not, is handed to the very next engine data
    call: the input descriptor covers exactly the bytes read (size [n],
    element size 2, the data at the front of the input buffer), the input
    arguments offer [n / 2] samples, and the output descriptor covers the
    whole output buffer. *)
Theorem encode_builds_descriptors : forall fuel rs es ws o t fl k data,
  encode fuel rs es ws = Some (o, t) ->
  hd_error t = Some (EvInfo AACENC_OK fl) ->
  0 <= fl < 2 ^ 29 ->
  nth_error t k = Some (EvRead data) ->
  data <> [] ->
  Loop.channels = 2 /\
  exists d1 d2 ia c oa,
    nth_error t (S k) = Some (EvProcess d1 d2 ia c oa) /\
    let n := Z.of_nat (List.length data) in
    numBufs d1 = 1 /\ bufferIdentifier d1 = IN_AUDIO_DATA /\
    bufSize d1 = n /\ bufElSize d1 = 2 /\
    firstn (List.length data) (bufRegion d1) = data /\
    Z.of_nat (List.length (bufRegion d1)) = 2 * Loop.channels * fl /\
    in_numInSamples ia = n / 2 /\ numAncBytes ia = 0 /\
    numBufs d2 = 1 /\ bufferIdentifier d2 = OUT_BITSTREAM_DATA /\
    bufSize d2 = 2 * Loop.channels * fl /\ bufElSize d2 = 2 /\
    Z.of_nat (List.length (bufRegion d2)) = 2 * Loop.channels * fl.
Proof.
  intros fuel rs es ws o t fl k data H Hhd Hfl Hk Hne.
  destruct (encode_read_at _ _ _ _ _ _ _ _ _ H Hhd Hk)
    as [t' [pre [post [-> [Ht' [-> Hcase]]]]]].
  split; [reflexivity|].
  destruct Hcase as [[Hnil _] | [_ [d1 [d2 [ia [c [oa [post' [-> Hd]]]]]]]]];
    [contradiction|].
  exists d1, d2, ia, c, oa. split.
  { cbn [nth_error]. rewrite Ht'. apply nth_error_after. }
  unfold descriptors_ok in Hd. unfold Loop.channels in *.
  destruct Hd as [H1 [H2 [H3 [H4 [H5 [H6 [H7 [H8 [H9 [H10 [H11 [H12 [H13 H14]]]]]]]]]]]]].
  assert (Hn : 0 <= Z.of_nat (List.length data) < 2 ^ 31) by lia.
  rewrite to_i32_small in H3, H8 by exact Hn.
  rewrite Z.quot_div_nonneg in H8 by lia.
  rewrite Z2Nat.id in H12 by lia. rewrite to_i32_small in H12 by lia.
  repeat split; try assumption; lia.
Qed.

(** C7: when [encode] returns [Ok], the samples it reports as consumed
    are at most the bytes read from the input source, halved, provided
    each successful data call reports between 0 and the offered samples as
    consumed. *)
Theorem consumed_within_read : forall fuel rs es ws i t,
  encode fuel rs es ws = Some (Done i, t) ->
  Forall consumed_within_offer t ->
  input_consumed i <= read_total t / 2.
Proof.
  intros fuel rs es ws i t H HF.
  destruct (encode_cases _ _ _ _ _ _ H)
    as [[c [fl [_ [_ Ho]]]] | [fl [st [t' [-> [Hr [_ [_ [Htc _]]]]]]]]];
    [discriminate|].
  apply Forall_inv_tail in HF.
  pose proof (run_loop_consumed_bound _ _ _ _ Hr HF ltac:(lia)) as Hb.
  cbn [read_total]. apply Z.div_le_lower_bound; lia.
Qed.

(** C8: in a run whose engine reports a non-negative consumed count on
    each successful data call, whose frame length is an engine [UINT] and
    which lasts at most [2^29] iterations, the totals at the top of the
    successive iterations, followed by the returned totals on success,
    start at [(0, 0)] and never decrease. *)
Theorem totals_nondecreasing : forall fuel rs es ws o t fl,
  encode fuel rs es ws = Some (o, t) ->
  hd_error t = Some (EvInfo AACENC_OK fl) ->
  0 <= fl < 2 ^ 32 ->
  Z.of_nat fuel <= 2 ^ 29 ->
  Forall reports_nonneg t ->
  exists rest, loop_heads t ++ final_totals o = (0, 0) :: rest /\
               nondecreasing ((0, 0) :: rest).
Proof.
  intros fuel rs es ws o t fl H Hhd Hfl Hfuel HF.
  destruct (encode_cases _ _ _ _ _ _ H)
    as [[c [fl' [Hc [-> _]]]] | [fl' [st [t' [-> [Hr [_ [Hol [Htc Htw]]]]]]]]].
  - injection Hhd as Hc' _. contradiction.
  - injection Hhd as <-. apply Forall_inv_tail in HF.
    unfold Loop.channels in Hol.
    assert (Hb1 : Loop.total_consumed_samples st + Z.of_nat fuel * 2 ^ 31 < two64)
      by (rewrite Htc; unfold two64; lia).
    assert (Hb2 : Loop.total_written_bytes st + Z.of_nat fuel * Z.of_nat (out_len st) < two64)
      by (rewrite Htw, Hol, Z2Nat.id by lia; unfold two64; nia).
    destruct (run_loop_monotone _ _ _ _ Hr HF ltac:(lia) ltac:(lia) Hb1 Hb2)
      as [rest [Hrest Hnd]].
    exists rest. rewrite Htc, Htw in *. split; [exact Hrest|exact Hnd].
Qed.

(** C10: a read of [n > 0] bytes, odd or not, is followed by a data call
    whose input descriptor has size [n] and whose input arguments offer
    [n / 2] samples (for odd [n], one byte less than [n] as samples);
    a read of 0 bytes is the last event, and [encode] returns [Ok] with the
    totals of that iteration. *)
Theorem reads_and_termination : forall fuel rs es ws o t fl k data,
  encode fuel rs es ws = Some (o, t) ->
  hd_error t = Some (EvInfo AACENC_OK fl) ->
  0 <= fl < 2 ^ 29 ->
  nth_error t k = Some (EvRead data) ->
  let n := Z.of_nat (List.length data) in
  (n = 0 -> List.length t = S k /\
            exists h, last_head (firstn k t) = Some h /\ o = Done (info_of h)) /\
  (0 < n -> exists d1 d2 ia c oa,
     nth_error t (S k) = Some (EvProcess d1 d2 ia c oa) /\
     bufSize d1 = n /\ in_numInSamples ia = n / 2 /\
     (Z.odd n = true -> 2 * in_numInSamples ia + 1 = n)).
Proof.
  intros fuel rs es ws o t fl k data H Hhd Hfl Hk n.
  destruct (encode_read_at _ _ _ _ _ _ _ _ _ H Hhd Hk)
    as [t' [pre [post [-> [Ht' [-> Hcase]]]]]].
  destruct Hcase as [[Hnil [-> [h [Hh Ho]]]] | [Hne [d1 [d2 [ia [c [oa [post' [-> Hd]]]]]]]]].
  - subst data. split.
    + intros _. split.
      * simpl. rewrite Ht', length_app. simpl. lia.
      * exists h. split; [|exact Ho].
        rewrite (last_head_firstn_event fl t' pre _ [] Ht'). exact Hh.
    + subst n. simpl. lia.
  - split.
    + intros Hn. subst n. destruct data; [contradiction|simpl in Hn; lia].
    + intros _. exists d1, d2, ia, c, oa. split.
      { cbn [nth_error]. rewrite Ht'. apply nth_error_after. }
      unfold descriptors_ok in Hd. unfold Loop.channels in *.
      destruct Hd as [_ [_ [H3 [_ [_ [_ [H7 [H8 _]]]]]]]].
      assert (Hn : 0 <= n < 2 ^ 31) by (subst n; lia).
      fold n in H3, H8.
      rewrite to_i32_small in H3, H8 by exact Hn.
      rewrite Z.quot_div_nonneg in H8 by lia.
      split; [exact H3|]. split; [exact H8|].
      intros Hodd. rewrite H8. pose proof (Z.div2_odd n) as E.
      rewrite Hodd, Z.div2_div in E. simpl Z.b2z in E. lia.
Qed.

(** Two more facts of one pass through the body: it panics only on a
    successful data call whose output size exceeds the output buffer, and
    the slice it offers to the sink has exactly that output size. *)
Lemma body_extra : forall st,
  match body st with
  | (s, evs) =>
      (s = Loop.Panic ->
         exists data d1 d2 ia oa, evs = [EvRead data; EvProcess d1 d2 ia AACENC_OK oa] /\
           bufRegion d2 = Loop.output_buffer st /\
           Z.of_nat (out_len st) < to_usize (numOutBytes oa)) /\
      (forall data d1 d2 ia c oa offered w,
         evs = [EvRead data; EvProcess d1 d2 ia c oa; EvWrite offered w] ->
         List.length offered = Z.to_nat (to_usize (numOutBytes oa)))
  end.
Proof.
  intros st. unfold Loop.body, Loop.read_into.
  destruct (read (Loop.ls_input st) (List.length (Loop.input_buffer st))) as [rs' [data0|e]].
  2:{ split; [discriminate|]. intros until w. discriminate. }
  cbn zeta.
  set (data := firstn (List.length (Loop.input_buffer st)) data0).
  destruct (Z.eqb_spec (Z.of_nat (List.length data)) 0) as [H0|H0].
  { split; [discriminate|]. intros until w. discriminate. }
  destruct (process _ _ _ _) as [es' [[c oa] outw]].
  assert (Hob : List.length (overwrite_prefix outw (Loop.output_buffer st)) = out_len st)
    by apply overwrite_prefix_length.
  destruct (Z.eqb_spec c AACENC_OK) as [Hok|Hko]; cbn [negb].
  - subst c.
    destruct (Z.ltb_spec (Z.of_nat (List.length (overwrite_prefix outw (Loop.output_buffer st))))
                (to_usize (numOutBytes oa))) as [Hp|Hp].
    + split.
      * intros _. eexists _, _, _, _, oa. split; [reflexivity|]. split; [reflexivity|].
        rewrite <- Hob. exact Hp.
      * intros until w. discriminate.
    + assert (Hnn : 0 <= to_usize (numOutBytes oa))
        by (unfold to_usize, two64; apply Z.mod_pos_bound; lia).
      destruct (write (Loop.ls_output st) _) as [ws' [n|e]]; (split; [discriminate|]);
        intros data' d1 d2 ia c' oa' offered w Hevs; injection Hevs; intros; subst;
        rewrite length_firstn; lia.
  - destruct (Z.eqb_spec c AACENC_ENCODE_EOF);
      (split; [discriminate|]); intros until w; discriminate.
Qed.

Ltac split_extra st :=
  let Hx := fresh "Hx" in
  pose proof (body_extra st) as Hx;
  pose proof (body_cases st) as Hb;
  destruct (body st) as [s evs];
  destruct Hx as [Hpanic Hwlen];
  destruct Hb as [[e [-> ->]] | [[st' [-> [-> Htot]]] |
    [data [r1 [c' [oa' [rest [-> [Hne [Hlen [Hr1 [Hpre Hk]]]]]]]]]]]].

(** A failed read is the last event of the run, which fails with it. *)
Lemma run_loop_read_error : forall fuel st o t pre e post,
  run_loop fuel st = Some (o, t) ->
  t = pre ++ EvReadErr e :: post ->
  post = [] /\ o = Failed (Io e).
Proof.
  induction fuel as [|fuel IH]; intros st o t pre e0 post Hrun Ht; [discriminate|].
  simpl in Hrun. split_body st.
  - injection Hrun as <- <-. peel Ht; subst. split; reflexivity.
  - injection Hrun as <- <-. peel Ht.
  - destruct Hk as [[Heof [-> [st' [-> Htot]]]] | [[Hko [Hne' [-> ->]]] |
                   [[Hok [-> ->]] | [Hok [Hrange [offered [w [-> Hw]]]]]]]];
      [| | | destruct Hw as [[e [-> ->]] | [n [st' [-> [-> [Htc [Htw [Hil Hol]]]]]]]]].
    1-4: injection Hrun as <- <-; peel Ht.
    destruct (run_loop fuel st') as [[o' t']|] eqn:Hr; [|discriminate].
    injection Hrun as <- <-. simpl in Ht. peel Ht; subst.
    exact (IH _ _ _ _ _ _ Hr eq_refl).
Qed.

(** A failed [write] is the last event of the run, which fails with it. *)
Lemma run_loop_write_error : forall fuel st o t pre offered e post,
  run_loop fuel st = Some (o, t) ->
  t = pre ++ EvWrite offered (IoErr e) :: post ->
  post = [] /\ o = Failed (Io e).
Proof.
  induction fuel as [|fuel IH]; intros st o t pre offered0 e0 post Hrun Ht; [discriminate|].
  simpl in Hrun. split_body st.
  - injection Hrun as <- <-. peel Ht.
  - injection Hrun as <- <-. peel Ht.
  - destruct Hk as [[Heof [-> [st' [-> Htot]]]] | [[Hko [Hne' [-> ->]]] |
                   [[Hok [-> ->]] | [Hok [Hrange [offered [w [-> Hw]]]]]]]];
      [| | | destruct Hw as [[e [-> ->]] | [n [st' [-> [-> [Htc [Htw [Hil Hol]]]]]]]]].
    1-3: injection Hrun as <- <-; peel Ht.
    + injection Hrun as <- <-. peel Ht; subst. split; reflexivity.
    + destruct (run_loop fuel st') as [[o' t']|] eqn:Hr; [|discriminate].
      injection Hrun as <- <-. simpl in Ht. peel Ht; subst; try discriminate.
      exact (IH _ _ _ _ _ _ _ Hr eq_refl).
Qed.

Lemma run_loop_nonempty : forall fuel st o t,
  run_loop fuel st = Some (o, t) -> t <> [].
Proof.
  intros [|fuel] st o t Hrun; [discriminate|]. simpl in Hrun.
  destruct (body st) as [[st'|st'|e|] evs].
  - destruct (run_loop fuel st') as [[o' t']|]; [|discriminate].
    injection Hrun as _ <-. discriminate.
  - injection Hrun as _ <-. discriminate.
  - injection Hrun as _ <-. discriminate.
  - injection Hrun as _ <-. discriminate.
Qed.

Ltac last_event Ht :=
  rewrite ?app_comm_cons in Ht;
  let E := fresh "E" in
  first [ apply (app_inj_tail [_]) in Ht as [_ E]
        | apply (app_inj_tail [_; _]) in Ht as [_ E]
        | apply (app_inj_tail [_; _; _]) in Ht as [_ E] ].

(** The run panics exactly when its last event is a successful data call
    whose output size, [as usize], exceeds the output buffer. *)
Lemma run_loop_panic : forall fuel st o t,
  run_loop fuel st = Some (o, t) ->
  (o = Panicked <->
   exists pre d1 d2 ia oa, t = pre ++ [EvProcess d1 d2 ia AACENC_OK oa] /\
     Z.of_nat (List.length (bufRegion d2)) < to_usize (numOutBytes oa)).
Proof.
  induction fuel as [|fuel IH]; intros st o t Hrun; [discriminate|].
  simpl in Hrun. split_extra st.
  - injection Hrun as <- <-. split; [discriminate|].
    intros [pre [d1 [d2 [ia [oa [Ht _]]]]]]. last_event Ht. discriminate E.
  - injection Hrun as <- <-. split; [discriminate|].
    intros [pre [d1 [d2 [ia [oa [Ht _]]]]]]. last_event Ht. discriminate E.
  - destruct Hk as [[Heof [-> [st' [-> Htot]]]] | [[Hko [Hne' [-> ->]]] |
                   [[Hok [-> ->]] | [Hok [Hrange [offered [w [-> Hw]]]]]]]];
      [| | | destruct Hw as [[e [-> ->]] | [n [st' [-> [-> [Htc [Htw [Hil Hol]]]]]]]]].
    + injection Hrun as <- <-. split; [discriminate|].
      intros [pre [d1 [d2 [ia [oa [Ht _]]]]]]. last_event Ht.
      injection E as _ _ _ Hc _. subst c'. discriminate Hc.
    + injection Hrun as <- <-. split; [discriminate|].
      intros [pre [d1 [d2 [ia [oa [Ht _]]]]]]. last_event Ht.
      injection E as _ _ _ Hc _. contradiction.
    + injection Hrun as <- <-. split; [|reflexivity].
      intros _. destruct (Hpanic eq_refl) as [data' [d1 [d2 [ia [oa [Hevs [Hreg Hlt]]]]]]].
      injection Hevs as -> -> -> -> -> ->.
      exists [EvLoopHead (Loop.total_consumed_samples st) (Loop.total_written_bytes st);
              EvRead data'], d1, d2, ia, oa.
      split; [reflexivity|]. rewrite Hreg. exact Hlt.
    + injection Hrun as <- <-. split; [discriminate|].
      intros [pre [d1 [d2 [ia [oa [Ht _]]]]]].
      change [EvRead data; ?x; ?y] with ([EvRead data; x] ++ [y]) in Ht.
      last_event Ht. discriminate E.
    + destruct (run_loop fuel st') as [[o' t']|] eqn:Hr; [|discriminate].
      injection Hrun as <- <-. rewrite (IH _ _ _ Hr).
      destruct (exists_last (run_loop_nonempty _ _ _ _ Hr)) as [l' [y ->]].
      split.
      * intros [pre [d1 [d2 [ia [oa [Ht Hlt]]]]]].
        apply app_inj_tail in Ht as [-> ->].
        eexists (EvLoopHead (Loop.total_consumed_samples st) (Loop.total_written_bytes st)
                 :: EvRead data :: _ :: EvWrite offered (IoOk n) :: pre), d1, d2, ia, oa.
        split; [reflexivity|exact Hlt].
      * intros [pre [d1 [d2 [ia [oa [Ht Hlt]]]]]].
        cbn [app] in Ht. rewrite !app_comm_cons in Ht.
        apply app_inj_tail in Ht as [_ ->].
        exists l', d1, d2, ia, oa. split; [reflexivity|exact Hlt].
Qed.

(** On [Ok], each total is the initial one plus the [as usize] values the
    successful data calls reported, wrapping at [2^64]. *)
Lemma run_loop_totals : forall fuel st i t,
  run_loop fuel st = Some (Done i, t) ->
  0 <= Loop.total_consumed_samples st < two64 ->
  0 <= Loop.total_written_bytes st < two64 ->
  input_consumed i = (Loop.total_consumed_samples st + ok_sum out_numInSamples t) mod two64 /\
  output_size i = (Loop.total_written_bytes st + ok_sum numOutBytes t) mod two64.
Proof.
  induction fuel as [|fuel IH]; intros st i t Hrun Hc Hw; [discriminate|].
  simpl in Hrun. split_body st.
  - discriminate.
  - injection Hrun as <- <-. destruct Htot as [H1 H2]. cbn. unfold two64 in *. rewrite H1, H2.
    rewrite !Z.add_0_r, !Z.mod_small by lia. split; reflexivity.
  - destruct Hk as [[Heof [-> [st' [-> Htot]]]] | [[Hko [Hne' [-> ->]]] |
                   [[Hok [-> ->]] | [Hok [Hrange [offered [w [-> Hw']]]]]]]];
      [| | | destruct Hw' as [[e [-> ->]] | [n [st' [-> [-> [Htc [Htw [Hil Hol]]]]]]]]];
      try discriminate.
    + injection Hrun as <- <-. destruct Htot as [H1 H2]. subst c'. cbn. unfold two64 in *. rewrite H1, H2.
      rewrite !Z.add_0_r, !Z.mod_small by lia. split; reflexivity.
    + destruct (run_loop fuel st') as [[o' t']|] eqn:Hr; [|discriminate].
      injection Hrun as -> <-. subst c'.
      assert (Hm : forall a, 0 <= a mod two64 < two64)
        by (intros a; unfold two64; apply Z.mod_pos_bound; lia).
      destruct (IH _ _ _ Hr) as [Hi Ho];
        [rewrite Htc; unfold usize_add; apply Hm | rewrite Htw; unfold usize_add; apply Hm |].
      rewrite Htc in Hi. rewrite Htw in Ho. unfold usize_add in Hi, Ho.
      rewrite Z.add_mod_idemp_l in Hi, Ho by (unfold two64; lia).
      cbn [ok_sum app Z.eqb AACENC_OK]. split; [rewrite Hi | rewrite Ho]; f_equal; lia.
Qed.

(** On [Ok], when every [write] took its whole slice, the bytes the sink
    received are those the successful data calls reported. *)
Lemma run_loop_received : forall fuel st i t,
  run_loop fuel st = Some (Done i, t) ->
  Forall whole_write t ->
  ok_sum numOutBytes t = Z.of_nat (List.length (sink_received t)).
Proof.
  induction fuel as [|fuel IH]; intros st i t Hrun HF; [discriminate|].
  simpl in Hrun. split_extra st.
  - discriminate.
  - injection Hrun as <- <-. reflexivity.
  - destruct Hk as [[Heof [-> [st' [-> Htot]]]] | [[Hko [Hne' [-> ->]]] |
                   [[Hok [-> ->]] | [Hok [Hrange [offered [w [-> Hw']]]]]]]];
      [| | | destruct Hw' as [[e [-> ->]] | [n [st' [-> [-> [Htc [Htw [Hil Hol]]]]]]]]];
      try discriminate.
    + injection Hrun as <- <-. subst c'. reflexivity.
    + destruct (run_loop fuel st') as [[o' t']|] eqn:Hr; [|discriminate].
      injection Hrun as -> <-. subst c'.
      pose proof (Hwlen _ _ _ _ _ _ _ _ eq_refl) as Hol'.
      inversion HF as [|? ? _ HF1]; subst. inversion HF1 as [|? ? _ HF2]; subst.
      inversion HF2 as [|? ? _ HF3]; subst. inversion HF3 as [|? ? Hww HF4]; subst.
      cbn in Hww. injection Hww as Hn. subst n.
      cbn [ok_sum sink_received app Z.eqb AACENC_OK].
      rewrite (IH _ _ _ Hr HF4).
      rewrite Nat2Z.id, firstn_all, length_app, Nat2Z.inj_add, Hol', Z2Nat.id by lia. lia.
Qed.

(** Every data call follows a read that returned bytes, and every such
    read is followed by one data call. *)
Lemma run_loop_process_count : forall fuel st o t,
  run_loop fuel st = Some (o, t) ->
  process_count t = nonempty_reads t.
Proof.
  induction fuel as [|fuel IH]; intros st o t Hrun; [discriminate|].
  simpl in Hrun. split_body st.
  - injection Hrun as <- <-. reflexivity.
  - injection Hrun as <- <-. reflexivity.
  - destruct data as [|b data]; [contradiction|].
    destruct Hk as [[Heof [-> [st' [-> Htot]]]] | [[Hko [Hne' [-> ->]]] |
                   [[Hok [-> ->]] | [Hok [Hrange [offered [w [-> Hw']]]]]]]];
      [| | | destruct Hw' as [[e [-> ->]] | [n [st' [-> [-> [Htc [Htw [Hil Hol]]]]]]]]].
    1-4: injection Hrun as <- <-; reflexivity.
    destruct (run_loop fuel st') as [[o' t']|] eqn:Hr; [|discriminate].
    injection Hrun as <- <-. cbn. rewrite (IH _ _ _ Hr). reflexivity.
Qed.

(** A successful data call whose output size, [as usize], exceeds the
    output buffer is the last event and the run panics. *)
Lemma run_loop_oversize : forall fuel st o t pre d1 d2 ia oa post,
  run_loop fuel st = Some (o, t) ->
  t = pre ++ EvProcess d1 d2 ia AACENC_OK oa :: post ->
  Z.of_nat (List.length (bufRegion d2)) < to_usize (numOutBytes oa) ->
  post = [] /\ o = Panicked.
Proof.
  induction fuel as [|fuel IH]; intros st o t pre d1 d2 ia oa post Hrun Ht Hlt; [discriminate|].
  simpl in Hrun. split_body st.
  - injection Hrun as <- <-. peel Ht.
  - injection Hrun as <- <-. peel Ht.
  - destruct Hk as [[Heof [-> [st' [-> Htot]]]] | [[Hko [Hne' [-> ->]]] |
                   [[Hok [-> ->]] | [Hok [Hrange [offered [w [-> Hw]]]]]]]];
      [| | | destruct Hw as [[e [-> ->]] | [n [st' [-> [-> [Htc [Htw [Hil Hol]]]]]]]]].
    + injection Hrun as <- <-. peel Ht; subst. discriminate.
    + injection Hrun as <- <-. peel Ht; subst. contradiction.
    + injection Hrun as <- <-. peel Ht; subst. split; reflexivity.
    + injection Hrun as <- <-. peel Ht; subst.
      exfalso. cbn [bufRegion] in Hlt. unfold out_len in Hrange. lia.
    + destruct (run_loop fuel st') as [[o' t']|] eqn:Hr; [|discriminate].
      injection Hrun as <- <-. simpl in Ht. peel Ht; subst.
      * exfalso. cbn [bufRegion] in Hlt. unfold out_len in Hrange. lia.
      * exact (IH _ _ _ _ _ _ _ _ _ Hr eq_refl Hlt).
Qed.


(** A failed read ends [encode] with that I/O error: it is the last
    event, so no data call and no write follow it. *)
Theorem read_error_ends_encode : forall fuel rs es ws o t k e,
  encode fuel rs es ws = Some (o, t) ->
  nth_error t k = Some (EvReadErr e) ->
  List.length t = S k /\ o = Failed (Io e).
Proof.
  intros fuel rs es ws o t k e H Hk.
  destruct (encode_event_at _ _ _ _ _ _ _ _ H Hk ltac:(discriminate))
    as [fl [st [t' [pre [post [-> [Hr [_ [_ [_ [_ [Ht' ->]]]]]]]]]]]].
  destruct (run_loop_read_error _ _ _ _ _ _ _ Hr Ht') as [-> ->].
  split; [|reflexivity]. simpl. rewrite Ht', length_app. simpl. lia.
Qed.

(** A failed [write] ends [encode] with that I/O error: it is the last
    event, and the totals are not updated for that call. *)
Theorem write_error_ends_encode : forall fuel rs es ws o t k offered e,
  encode fuel rs es ws = Some (o, t) ->
  nth_error t k = Some (EvWrite offered (IoErr e)) ->
  List.length t = S k /\ o = Failed (Io e).
Proof.
  intros fuel rs es ws o t k offered e H Hk.
  destruct (encode_event_at _ _ _ _ _ _ _ _ H Hk ltac:(discriminate))
    as [fl [st [t' [pre [post [-> [Hr [_ [_ [_ [_ [Ht' ->]]]]]]]]]]]].
  destruct (run_loop_write_error _ _ _ _ _ _ _ _ Hr Ht') as [-> ->].
  split; [|reflexivity]. simpl. rewrite Ht', length_app. simpl. lia.
Qed.

(** [encode] panics (the slice [output_buffer[0..output_size]] is out of
    range) exactly when its last event is a successful data call whose
    [numOutBytes], [as usize], exceeds the output buffer. *)
Theorem encode_panics_iff : forall fuel rs es ws o t,
  encode fuel rs es ws = Some (o, t) ->
  (o = Panicked <->
   exists pre d1 d2 ia oa, t = pre ++ [EvProcess d1 d2 ia AACENC_OK oa] /\
     Z.of_nat (List.length (bufRegion d2)) < to_usize (numOutBytes oa)).
Proof.
  intros fuel rs es ws o t H.
  destruct (encode_cases _ _ _ _ _ _ H)
    as [[c [fl [_ [-> ->]]]] | [fl [st [t' [-> [Hr _]]]]]].
  - split; [discriminate|]. intros [pre [d1 [d2 [ia [oa [Ht _]]]]]].
    destruct pre as [|? [|? ?]]; discriminate Ht.
  - rewrite (run_loop_panic _ _ _ _ Hr). split.
    + intros [pre [d1 [d2 [ia [oa [-> Hlt]]]]]].
      exists (EvInfo AACENC_OK fl :: pre), d1, d2, ia, oa. split; [reflexivity|exact Hlt].
    + intros [pre [d1 [d2 [ia [oa [Ht Hlt]]]]]].
      destruct pre as [|ev pre].
      * injection Ht as Ht. discriminate Ht.
      * injection Ht as _ ->. exists pre, d1, d2, ia, oa. split; [reflexivity|exact Hlt].
Qed.

(** With a frame length that is a [UINT], a successful data call whose
    [numOutBytes] (a C [INT]) is negative or larger than the
    [4 * frameLength]-byte output buffer makes [encode] panic at once. *)
Theorem bad_output_size_panics : forall fuel rs es ws o t fl k d1 d2 ia oa,
  encode fuel rs es ws = Some (o, t) ->
  hd_error t = Some (EvInfo AACENC_OK fl) ->
  0 <= fl < 2 ^ 32 ->
  nth_error t k = Some (EvProcess d1 d2 ia AACENC_OK oa) ->
  - 2 ^ 31 <= numOutBytes oa < 2 ^ 31 ->
  numOutBytes oa < 0 \/ 2 * Loop.channels * fl < numOutBytes oa ->
  List.length t = S k /\ o = Panicked.
Proof.
  intros fuel rs es ws o t fl k d1 d2 ia oa H Hhd Hfl Hk Hrng Hbad.
  destruct (encode_event_at _ _ _ _ _ _ _ _ H Hk ltac:(discriminate))
    as [fl' [st [t' [pre [post [-> [Hr [Hil [Hol [_ [_ [Ht' ->]]]]]]]]]]]].
  injection Hhd as <-.
  destruct (run_loop_process_after_read _ _ _ _ _ _ _ _ _ _ _ Hr Ht') as [pre' [data ->]].
  assert (Ht2 : t' = pre' ++ EvRead data :: EvProcess d1 d2 ia AACENC_OK oa :: post)
    by (rewrite Ht', <- app_assoc; reflexivity).
  destruct (run_loop_read _ _ _ _ _ _ _ Hr Ht2)
    as [[_ [Hc _]] | [_ [d1' [d2' [ia' [c [oa' [post' [Hc Hd]]]]]]]]]; [discriminate|].
  injection Hc as <- <- <- _ <- _.
  destruct Hd as [_ [_ [_ [_ [_ [_ [_ [_ [_ [_ [_ [_ [_ Hlen]]]]]]]]]]]]].
  assert (Hlt : Z.of_nat (List.length (bufRegion d2)) < to_usize (numOutBytes oa)).
  { rewrite Hlen, Hol. unfold Loop.channels in *. rewrite Z2Nat.id by lia.
    unfold to_usize, two64. destruct Hbad as [Hneg|Hbig].
    - rewrite <- (Z.mod_add _ 1) by lia. rewrite Z.mod_small by lia. lia.
    - rewrite Z.mod_small by lia. lia. }
  destruct (run_loop_oversize _ _ _ _ _ _ _ _ _ _ Hr Ht' Hlt) as [-> ->].
  split; [|reflexivity]. rewrite Ht'. simpl. rewrite !length_app. simpl. lia.
Qed.

(** On [Ok], each returned total is the sum of the values the successful
    data calls reported, converted [as usize], wrapping at [2^64]. *)
Theorem encode_totals_are_sums : forall fuel rs es ws i t,
  encode fuel rs es ws = Some (Done i, t) ->
  input_consumed i = ok_sum out_numInSamples t mod two64 /\
  output_size i = ok_sum numOutBytes t mod two64.
Proof.
  intros fuel rs es ws i t H.
  destruct (encode_cases _ _ _ _ _ _ H)
    as [[c [fl [_ [_ Ho]]]] | [fl [st [t' [-> [Hr [_ [_ [Htc Htw]]]]]]]]];
    [discriminate|].
  destruct (run_loop_totals _ _ _ _ Hr) as [Hi Hw];
    [rewrite Htc; unfold two64; lia | rewrite Htw; unfold two64; lia |].
  rewrite Htc in Hi. rewrite Htw in Hw. exact (conj Hi Hw).
Qed.

(** On [Ok], when every [write] took its whole slice, [output_size] is
    the number of bytes the sink received (modulo [2^64]). *)
Theorem output_size_counts_received : forall fuel rs es ws i t,
  encode fuel rs es ws = Some (Done i, t) ->
  Forall whole_write t ->
  output_size i = Z.of_nat (List.length (sink_received t)) mod two64.
Proof.
  intros fuel rs es ws i t H HF.
  destruct (encode_totals_are_sums _ _ _ _ _ _ H) as [_ Ho]. rewrite Ho.
  destruct (encode_cases _ _ _ _ _ _ H)
    as [[c [fl [_ [_ Hc]]]] | [fl [st [t' [-> [Hr _]]]]]]; [discriminate|].
  apply Forall_inv_tail in HF. cbn [ok_sum sink_received].
  rewrite (run_loop_received _ _ _ _ Hr HF). reflexivity.
Qed.

(** [encode] calls the engine with data once per read that returned
    bytes, and at no other time. *)
Theorem process_once_per_nonempty_read : forall fuel rs es ws o t,
  encode fuel rs es ws = Some (o, t) ->
  process_count t = nonempty_reads t.
Proof.
  intros fuel rs es ws o t H.
  destruct (encode_cases _ _ _ _ _ _ H)
    as [[c [fl [_ [-> _]]]] | [fl [st [t' [-> [Hr _]]]]]]; [reflexivity|].
  exact (run_loop_process_count _ _ _ _ Hr).
Qed.

End LoopProofs.

(** ** Runs over a scripted input source *)

Section ScriptedInput.
Context {ES : Type} (info : ES -> ES * (Z * Z))
  (process : ES -> BufDesc -> BufDesc -> InArgs -> ES * (Z * OutArgs * list byte)).
Context {WS : Type} (write : WS -> list byte -> WS * io_result Z).

Hypothesis process_ok : forall es d1 d2 ia es' c oa out,
  process es d1 d2 ia = (es', (c, oa, out)) ->
  c = AACENC_OK /\ 0 <= numOutBytes oa <= Z.of_nat (List.length (bufRegion d2)).
Hypothesis write_ok : forall ws b, exists ws' n, write ws b = (ws', IoOk n).

Local Abbreviation run_loop := (Loop.run_loop script_read process write).

Lemma scripted_loop : forall chunks fuel es ws inb outb tc tw,
  Forall (fun c => c <> [] /\ (List.length c <= List.length inb)%nat) chunks ->
  Z.of_nat (List.length outb) < two64 ->
  (List.length chunks < fuel)%nat ->
  exists i t,
    run_loop fuel {| Loop.ls_input := chunks; Loop.ls_engine := es; Loop.ls_output := ws;
                     Loop.input_buffer := inb; Loop.output_buffer := outb;
                     Loop.total_consumed_samples := tc; Loop.total_written_bytes := tw |}
      = Some (Done i, t) /\
    process_count t = List.length chunks /\
    (chunks = [] -> i = {| input_consumed := tc; output_size := tw |}).
Proof.
  induction chunks as [|ch chunks IH];
    intros fuel es ws inb outb tc tw HF Hout Hfuel;
    (destruct fuel as [|fuel]; [simpl in Hfuel; lia|]).
  - exists {| input_consumed := tc; output_size := tw |}, [EvLoopHead tc tw; EvRead []].
    cbn [Loop.run_loop Loop.body Loop.read_into script_read Loop.ls_input Loop.input_buffer].
    rewrite firstn_nil. split; [reflexivity|]. split; [reflexivity|]. intros _. reflexivity.
  - inversion HF as [|? ? [Hne Hle] HF']; subst.
    cbn [Loop.run_loop Loop.body Loop.read_into script_read Loop.ls_input Loop.input_buffer].
    rewrite (firstn_all2 ch Hle).
    destruct (Z.eqb_spec (Z.of_nat (List.length ch)) 0) as [H0|_].
    { destruct ch; [contradiction|simpl in H0; lia]. }
    destruct (process _ _ _ _) as [es' [[c oa] out]] eqn:Hp.
    destruct (process_ok _ _ _ _ _ _ _ _ Hp) as [-> Hrange]. cbn [bufRegion Loop.output_buffer] in Hrange.
    cbn [negb Z.eqb AACENC_OK Loop.output_buffer Loop.ls_output Loop.ls_engine
         Loop.total_consumed_samples Loop.total_written_bytes].
    rewrite (to_usize_small (numOutBytes oa)) by (unfold two64 in *; lia).
    rewrite overwrite_prefix_length.
    destruct (Z.ltb_spec (Z.of_nat (List.length outb)) (numOutBytes oa)) as [Hlt|_]; [lia|].
    destruct (write_ok ws (firstn (Z.to_nat (numOutBytes oa)) (overwrite_prefix out outb)))
      as [ws' [n Hw]].
    rewrite Hw.
    destruct (IH fuel es' ws' (overwrite_prefix ch inb) (overwrite_prefix out outb)
                (usize_add tc (to_usize (out_numInSamples oa)))
                (usize_add tw (numOutBytes oa)))
      as [i [t [Hr [Hpc _]]]].
    + rewrite overwrite_prefix_length. exact HF'.
    + rewrite overwrite_prefix_length. exact Hout.
    + simpl in Hfuel. lia.
    + rewrite Hr. eexists i, _. split; [reflexivity|]. split.
      * simpl. rewrite Hpc. reflexivity.
      * intros Hnil. discriminate.
Qed.

(** C4: with an engine that reports [AACENC_OK] (and a frame length
    [fl]) to [aacEncInfo] and answers every data call with [AACENC_OK] and
    an output size within the output buffer, a sink whose [write] always
    succeeds, and an input source that yields [k] non-empty chunks (each
    fitting the input buffer) and then 0 bytes, [encode] makes exactly [k]
    data calls and returns [Ok]; with [k = 0] it returns
    [EncodeInfo { input_consumed: 0, output_size: 0 }]. *)
Theorem scripted_input_k_calls : forall fuel chunks es ws fl,
  (forall es0, exists es1, info es0 = (es1, (AACENC_OK, fl))) ->
  0 <= fl < 2 ^ 32 ->
  Forall (fun c => c <> [] /\ (List.length c <= Z.to_nat (2 * Loop.channels * fl))%nat) chunks ->
  (List.length chunks < fuel)%nat ->
  exists i t,
    Loop.encode script_read info process write fuel chunks es ws = Some (Done i, t) /\
    process_count t = List.length chunks /\
    (chunks = [] -> i = {| input_consumed := 0; output_size := 0 |}).
Proof.
  intros fuel chunks es ws fl Hinfo Hfl HF Hfuel.
  destruct (Hinfo es) as [es1 Hi].
  unfold Loop.encode. rewrite Hi. cbn [check Z.eqb AACENC_OK].
  destruct (scripted_loop chunks fuel es1 ws
              (repeat Byte.x00 (Z.to_nat (2 * Loop.channels * fl)))
              (repeat Byte.x00 (Z.to_nat (2 * Loop.channels * fl))) 0 0)
    as [i [t [Hr [Hpc Hnil]]]].
  - rewrite repeat_length. exact HF.
  - rewrite repeat_length. unfold Loop.channels, two64. rewrite Z2Nat.id by lia. lia.
  - exact Hfuel.
  - rewrite Hr. exists i, (EvInfo AACENC_OK fl :: t). split; [reflexivity|].
    split; [exact Hpc|exact Hnil].
Qed.

End ScriptedInput.

(** ** Concrete runs *)

Ltac run_hyp :=
  lazymatch goal with
  | |- Forall _ _ => repeat constructor; cbn; intros; first [lia | discriminate]
  | |- _ => first [ vm_compute; reflexivity | reflexivity | lia | cbv; discriminate ]
  end.

(** C1: [output.write(&output_buffer[0..output_size])] ignores how many
    bytes the sink took. A successful data call produces 3 bytes, the
    sink's [write] takes 1 of them (as [Write::write] may), and [encode]
    still returns [Ok] with [output_size = 3]: the sink has received the
    single byte [0x01], the other two are dropped. *)
Theorem short_write_drops_bytes :
  outcome_of short_write_run = Done {| input_consumed := 2; output_size := 3 |} /\
  process_count (trace_of short_write_run) = 1%nat /\
  sink_received (trace_of short_write_run) = [Byte.x01].
Proof. vm_compute. repeat split. Qed.

Lemma eof_ends_encode_cleanly_witness :
  List.length (trace_of eof_run) = 4%nat /\
  exists h, last_head (firstn 3 (trace_of eof_run)) = Some h /\
            outcome_of eof_run = Done (info_of h).
Proof.
  eapply (eof_ends_encode_cleanly script_read (script_info 1) script_process full_sink
            5 [[Byte.x01; Byte.x02]] [] tt).
  all: run_hyp.
Defined.

(** C4, as stated, fails: the engine answers every call with
    [AACENC_OK] and the source yields two non-empty chunks, but the sink's
    [write] fails, so [encode] returns the I/O error after one data call. *)
Theorem failing_sink_stops_early :
  (exists e, outcome_of broken_sink_run = Failed (Io e)) /\
  process_count (trace_of broken_sink_run) = 1%nat.
Proof. vm_compute. split; [eexists; reflexivity | reflexivity]. Qed.

Lemma scripted_input_k_calls_witness :
  exists i t,
    Loop.encode script_read (steady_info 1) steady_process full_sink 5
      [[Byte.x01; Byte.x02]; [Byte.x03]] tt tt = Some (Done i, t) /\
    process_count t = 2%nat /\
    ([[Byte.x01; Byte.x02]; [Byte.x03]] = [] -> i = {| input_consumed := 0; output_size := 0 |}).
Proof.
  apply (scripted_input_k_calls (steady_info 1) steady_process full_sink) with (fl := 1).
  - intros es d1 d2 ia es' c oa out Hp. injection Hp as <- <- <- <-.
    split; [reflexivity|]. cbn [numOutBytes]. lia.
  - intros ws b. exists tt, (Z.of_nat (List.length b)). reflexivity.
  - intros es0. exists es0. reflexivity.
  - lia.
  - repeat constructor; try discriminate; cbv; lia.
  - cbn. lia.
Defined.

Lemma engine_error_ends_encode_witness :
  List.length (trace_of error_run) = 4%nat /\
  outcome_of error_run = Failed (FdkAac AACENC_ENCODE_ERROR).
Proof.
  edestruct (engine_error_ends_encode script_read (script_info 1) script_process full_sink
               5 [[Byte.x01; Byte.x02]] [(AACENC_ENCODE_ERROR, out_args 0 0, [])] tt
               (outcome_of error_run) (trace_of error_run) 3)
    as [H1 [H2 _]].
  5: split; [exact H1 | exact H2].
  all: run_hyp.
Defined.

Lemma encode_builds_descriptors_witness :
  exists d1 d2 ia c oa,
    nth_error (trace_of full_read_run) 3 = Some (EvProcess d1 d2 ia c oa) /\
    bufSize d1 = 4 /\ in_numInSamples ia = 2 /\ bufSize d2 = 4.
Proof.
  edestruct (encode_builds_descriptors script_read (script_info 1) script_process full_sink
               5 [[Byte.x01; Byte.x02; Byte.x03; Byte.x04]]
               [(AACENC_OK, out_args 3 2, [Byte.x01; Byte.x02; Byte.x03])] tt
               (outcome_of full_read_run) (trace_of full_read_run) 1 2
               [Byte.x01; Byte.x02; Byte.x03; Byte.x04])
    as [_ [d1 [d2 [ia [c [oa [Hk Hd]]]]]]].
  6: { exists d1, d2, ia, c, oa. cbn zeta in Hd.
       destruct Hd as [_ [_ [H3 [_ [_ [_ [H8 [_ [_ [_ [H12 _]]]]]]]]]]].
       split; [exact Hk|]. rewrite H3, H8, H12. vm_compute. repeat split. }
  all: run_hyp.
Defined.

Lemma consumed_within_read_witness :
  input_consumed {| input_consumed := 2; output_size := 3 |} <=
  read_total (trace_of full_read_run) / 2.
Proof.
  apply (consumed_within_read script_read (script_info 1) script_process full_sink
           5 [[Byte.x01; Byte.x02; Byte.x03; Byte.x04]]
           [(AACENC_OK, out_args 3 2, [Byte.x01; Byte.x02; Byte.x03])] tt).
  all: run_hyp.
Defined.

Lemma totals_nondecreasing_witness :
  exists rest,
    loop_heads (trace_of full_read_run) ++ final_totals (outcome_of full_read_run)
      = (0, 0) :: rest /\ nondecreasing ((0, 0) :: rest).
Proof.
  apply (totals_nondecreasing script_read (script_info 1) script_process full_sink
           5 [[Byte.x01; Byte.x02; Byte.x03; Byte.x04]]
           [(AACENC_OK, out_args 3 2, [Byte.x01; Byte.x02; Byte.x03])] tt
           (outcome_of full_read_run) (trace_of full_read_run) 1).
  all: run_hyp.
Defined.

(** C8, as stated, fails: when the engine reports a consumed count of
    [-1] ([numInSamples] is a C [INT]), [as usize] turns it into
    [2^64 - 1] and the wrapping addition takes the consumed total from 1
    back to 0. *)
Theorem wrapping_consumed_total_decreases :
  loop_heads (trace_of wrapping_run) ++ final_totals (outcome_of wrapping_run)
    = [(0, 0); (1, 0); (0, 0); (0, 0)] /\
  ~ nondecreasing (loop_heads (trace_of wrapping_run) ++ final_totals (outcome_of wrapping_run)).
Proof.
  assert (E : loop_heads (trace_of wrapping_run) ++ final_totals (outcome_of wrapping_run)
              = [(0, 0); (1, 0); (0, 0); (0, 0)]) by (vm_compute; reflexivity).
  split; [exact E|]. rewrite E. simpl. intros [_ [_ [H _]]]. lia.
Qed.

Lemma reads_and_termination_witness :
  exists d1 d2 ia c oa,
    nth_error (trace_of short_read_run) 3 = Some (EvProcess d1 d2 ia c oa) /\
    bufSize d1 = 3 /\ in_numInSamples ia = 1 /\ 2 * in_numInSamples ia + 1 = 3.
Proof.
  edestruct (reads_and_termination script_read (script_info 1) script_process full_sink
               5 [[Byte.x01; Byte.x02; Byte.x03]]
               [(AACENC_OK, out_args 2 1, [Byte.x07; Byte.x08])] tt
               (outcome_of short_read_run) (trace_of short_read_run) 1 2
               [Byte.x01; Byte.x02; Byte.x03])
    as [_ Hpos].
  5: { destruct (Hpos ltac:(cbn; lia)) as [d1 [d2 [ia [c [oa [Hk [H1 [H2 H3]]]]]]]].
       exists d1, d2, ia, c, oa. cbn in H1, H2, H3.
       split; [exact Hk|]. split; [exact H1|]. split; [exact H2|]. apply H3. reflexivity. }
  all: run_hyp.
Defined.

(** C7, with only the upper bound of the engine's contract, fails: the
    engine reports [-1] consumed samples of the 1 offered, [as usize] turns
    that into [2^64 - 1], and [encode] returns it as [input_consumed]
    after 2 bytes were read. *)
Theorem negative_report_exceeds_read :
  (exists d1 d2, nth_error (trace_of negative_report_run) 3 =
     Some (EvProcess d1 d2 {| in_numInSamples := 1; numAncBytes := 0 |}
                     AACENC_OK (out_args 0 (-1)))) /\
  read_total (trace_of negative_report_run) = 2 /\
  outcome_of negative_report_run = Done {| input_consumed := two64 - 1; output_size := 0 |}.
Proof.
  vm_compute. split; [eexists; eexists; reflexivity|]. split; reflexivity.
Qed.

(** ** Witnesses of the further properties *)

Ltac extra_hyp :=
  first [ run_hyp | (cbn; lia) | (right; cbn; lia) ].


Lemma read_error_ends_encode_witness :
  List.length (trace_of read_error_run) = 3%nat /\
  outcome_of read_error_run = Failed (Io (mk_io_error 5)).
Proof.
  eapply (read_error_ends_encode failing_read (script_info 1) script_process full_sink
            5 [[Byte.x01; Byte.x02]] [] tt _ _ 2).
  all: extra_hyp.
Defined.

Lemma write_error_ends_encode_witness :
  List.length (trace_of broken_sink_run) = 5%nat /\
  outcome_of broken_sink_run = Failed (Io (mk_io_error 32)).
Proof.
  eapply (write_error_ends_encode script_read (steady_info 1) steady_process broken_sink
            5 [[Byte.x01; Byte.x02]; [Byte.x03; Byte.x04]] tt tt _ _ 4).
  all: extra_hyp.
Defined.

Lemma encode_panics_iff_witness :
  exists pre d1 d2 ia oa,
    trace_of oversize_run = pre ++ [EvProcess d1 d2 ia AACENC_OK oa] /\
    Z.of_nat (List.length (bufRegion d2)) < to_usize (numOutBytes oa).
Proof.
  apply (proj1 (encode_panics_iff script_read (script_info 1) script_process full_sink
                  5 [[Byte.x01; Byte.x02]] [(AACENC_OK, out_args 5 1, [])] tt
                  (outcome_of oversize_run) (trace_of oversize_run)
                  ltac:(vm_compute; reflexivity))).
  vm_compute. reflexivity.
Defined.

Lemma bad_output_size_panics_witness :
  List.length (trace_of oversize_run) = 4%nat /\ outcome_of oversize_run = Panicked.
Proof.
  eapply (bad_output_size_panics script_read (script_info 1) script_process full_sink
            5 [[Byte.x01; Byte.x02]] [(AACENC_OK, out_args 5 1, [])] tt _ _ 1 3).
  all: extra_hyp.
Defined.

Lemma encode_totals_are_sums_witness :
  input_consumed {| input_consumed := 3; output_size := 4 |}
    = ok_sum out_numInSamples (trace_of two_frames_run) mod two64 /\
  output_size {| input_consumed := 3; output_size := 4 |}
    = ok_sum numOutBytes (trace_of two_frames_run) mod two64.
Proof.
  apply (encode_totals_are_sums script_read (script_info 1) script_process full_sink
           5 [[Byte.x01; Byte.x02; Byte.x03; Byte.x04]; [Byte.x05; Byte.x06]]
           [(AACENC_OK, out_args 3 2, [Byte.x0a; Byte.x0b; Byte.x0c]);
            (AACENC_OK, out_args 1 1, [Byte.x0d])] tt).
  vm_compute. reflexivity.
Defined.

Lemma output_size_counts_received_witness :
  output_size {| input_consumed := 3; output_size := 4 |}
    = Z.of_nat (List.length (sink_received (trace_of two_frames_run))) mod two64.
Proof.
  apply (output_size_counts_received script_read (script_info 1) script_process full_sink
           5 [[Byte.x01; Byte.x02; Byte.x03; Byte.x04]; [Byte.x05; Byte.x06]]
           [(AACENC_OK, out_args 3 2, [Byte.x0a; Byte.x0b; Byte.x0c]);
            (AACENC_OK, out_args 1 1, [Byte.x0d])] tt).
  all: extra_hyp.
Defined.

Lemma process_once_per_nonempty_read_witness :
  process_count (trace_of two_frames_run) = nonempty_reads (trace_of two_frames_run).
Proof.
  apply (process_once_per_nonempty_read script_read (script_info 1) script_process full_sink
           5 [[Byte.x01; Byte.x02; Byte.x03; Byte.x04]; [Byte.x05; Byte.x06]]
           [(AACENC_OK, out_args 3 2, [Byte.x0a; Byte.x0b; Byte.x0c]);
            (AACENC_OK, out_args 1 1, [Byte.x0d])] tt (outcome_of two_frames_run)).
  vm_compute. reflexivity.
Defined.
